(** * InputService: action bindings, context gate and handler dispatch

    A shallow embedding of [core/services/InputService.ts] (the class
    [InputService]) and theorems about its binding table, its context gate,
    its raw key tracker, the derived movement axes and the fan-out of
    action handlers; and of [core/services/ServiceLocator.ts] (the class
    [ServiceLocator]), in which the service publishes itself.

    Modelling conventions.
    - A JS [Map] or [Set] that the source iterates ([bindings], [keyStates],
      [axisValues], the handler sets) is an insertion-ordered association
      list with the semantics of [Map.prototype.set]: an existing key keeps
      its position, a new key goes to the end.
    - A [Map] or [Set] that is only probed by key ([actionStates],
      [activeContexts]) is a stdpp [gmap] / [gset].
    - Control tokens are strings of 8-bit characters; [toLowerCase] acts on
      the letters A-Z.
    - A handler is an opaque callback: it is identified by a number, every
      invocation is appended to a call log, and it either returns or raises.
      Handlers that call back into the service are outside the model.
    - The statements of the source are sequenced in a state monad whose
      computations either complete normally or abruptly (an exception that
      nobody caught), keeping the mutations made so far. *)

From Stdlib Require Import ZArith Ascii String.
From stdpp Require Import base decidable countable gmap strings list pretty.

Open Scope string_scope.
Open Scope list_scope.

(** ** Enumerations *)

Inductive InputActionType :=
  | MOVE_FORWARD | MOVE_BACKWARD | MOVE_LEFT | MOVE_RIGHT | JUMP | SPRINT | CROUCH
  | ATTACK_PRIMARY | ATTACK_SECONDARY | RELOAD | AIM
  | USE_ABILITY_1 | USE_ABILITY_2 | USE_ABILITY_3
  | INTERACT | USE_ITEM | PICK_UP | DROP
  | MENU_TOGGLE | INVENTORY_TOGGLE | MAP_TOGGLE | QUEST_LOG_TOGGLE | PAUSE
  | ENTER_EXIT_VEHICLE | VEHICLE_ACCELERATE | VEHICLE_BRAKE
  | VEHICLE_TURN_LEFT | VEHICLE_TURN_RIGHT
  | CAMERA_LOOK | CAMERA_ZOOM
  | GRAPPLE | RELEASE_GRAPPLE.

Inductive InputContext := PLAYER | VEHICLE | UI | MENU | DIALOG | CUTSCENE.

Inductive InputState := PRESSED | RELEASED | HELD.

#[global] Instance InputActionType_eq_dec : EqDecision InputActionType.
Proof. solve_decision. Defined.

#[global] Instance InputContext_eq_dec : EqDecision InputContext.
Proof. solve_decision. Defined.

#[global] Instance InputState_eq_dec : EqDecision InputState.
Proof. solve_decision. Defined.

Definition all_actions : list InputActionType :=
  [ MOVE_FORWARD; MOVE_BACKWARD; MOVE_LEFT; MOVE_RIGHT; JUMP; SPRINT; CROUCH;
    ATTACK_PRIMARY; ATTACK_SECONDARY; RELOAD; AIM;
    USE_ABILITY_1; USE_ABILITY_2; USE_ABILITY_3;
    INTERACT; USE_ITEM; PICK_UP; DROP;
    MENU_TOGGLE; INVENTORY_TOGGLE; MAP_TOGGLE; QUEST_LOG_TOGGLE; PAUSE;
    ENTER_EXIT_VEHICLE; VEHICLE_ACCELERATE; VEHICLE_BRAKE;
    VEHICLE_TURN_LEFT; VEHICLE_TURN_RIGHT;
    CAMERA_LOOK; CAMERA_ZOOM; GRAPPLE; RELEASE_GRAPPLE ].

Definition all_contexts : list InputContext :=
  [ PLAYER; VEHICLE; UI; MENU; DIALOG; CUTSCENE ].

Definition action_index (a : InputActionType) : nat :=
  match a with
  | MOVE_FORWARD => 0 | MOVE_BACKWARD => 1 | MOVE_LEFT => 2 | MOVE_RIGHT => 3
  | JUMP => 4 | SPRINT => 5 | CROUCH => 6
  | ATTACK_PRIMARY => 7 | ATTACK_SECONDARY => 8 | RELOAD => 9 | AIM => 10
  | USE_ABILITY_1 => 11 | USE_ABILITY_2 => 12 | USE_ABILITY_3 => 13
  | INTERACT => 14 | USE_ITEM => 15 | PICK_UP => 16 | DROP => 17
  | MENU_TOGGLE => 18 | INVENTORY_TOGGLE => 19 | MAP_TOGGLE => 20
  | QUEST_LOG_TOGGLE => 21 | PAUSE => 22
  | ENTER_EXIT_VEHICLE => 23 | VEHICLE_ACCELERATE => 24 | VEHICLE_BRAKE => 25
  | VEHICLE_TURN_LEFT => 26 | VEHICLE_TURN_RIGHT => 27
  | CAMERA_LOOK => 28 | CAMERA_ZOOM => 29 | GRAPPLE => 30 | RELEASE_GRAPPLE => 31
  end%nat.

Definition context_index (c : InputContext) : nat :=
  match c with
  | PLAYER => 0 | VEHICLE => 1 | UI => 2 | MENU => 3 | DIALOG => 4 | CUTSCENE => 5
  end%nat.

#[global] Instance InputActionType_countable : Countable InputActionType :=
  inj_countable action_index (fun n => all_actions !! n) ltac:(by intros []).

#[global] Instance InputContext_countable : Countable InputContext :=
  inj_countable context_index (fun n => all_contexts !! n) ltac:(by intros []).

(** ** Strings *)

(** [String.prototype.toLowerCase], on the letters A-Z. *)
Definition lower_ascii (c : ascii) : ascii :=
  let n := N_of_ascii c in
  if ((65 <=? n) && (n <=? 90))%N then ascii_of_N (n + 32) else c.

Fixpoint toLowerCase (s : string) : string :=
  match s with
  | EmptyString => EmptyString
  | String c s' => String (lower_ascii c) (toLowerCase s')
  end.

(** Truthiness of a string: only the empty string is falsy. *)
Definition truthy (s : string) : bool :=
  match s with EmptyString => false | String _ _ => true end.

(** ** Insertion-ordered maps and sets *)

Section JsMap.
Context {K V : Type} `{EqDecision K}.

Definition JsMap := list (K * V).

Fixpoint jsmap_get (k : K) (m : JsMap) : option V :=
  match m with
  | [] => None
  | (k', v) :: m' => if decide (k = k') then Some v else jsmap_get k m'
  end.

Definition jsmap_has (k : K) (m : JsMap) : bool :=
  match jsmap_get k m with Some _ => true | None => false end.

Fixpoint jsmap_set (k : K) (v : V) (m : JsMap) : JsMap :=
  match m with
  | [] => [(k, v)]
  | (k', v') :: m' =>
      if decide (k = k') then (k, v) :: m' else (k', v') :: jsmap_set k v m'
  end.

Definition jsmap_keys (m : JsMap) : list K := m.*1.
Definition jsmap_values (m : JsMap) : list V := m.*2.
End JsMap.

Arguments JsMap : clear implicits.

Section JsSet.
Context {A : Type} `{EqDecision A}.

Definition JsSet := list A.

Definition jsset_has (x : A) (s : JsSet) : bool := bool_decide (x ∈ s).

Definition jsset_add (x : A) (s : JsSet) : JsSet :=
  if jsset_has x s then s else s ++ [x].

Definition jsset_delete (x : A) (s : JsSet) : JsSet :=
  filter (fun y => y ≠ x) s.
End JsSet.

Arguments JsSet : clear implicits.

(** ** Data model *)

(** [IInputBinding]; the optional [secondary] is [None] when the property is
    absent or [undefined]. *)
Record IInputBinding := {
  action : InputActionType;
  primary : string;
  secondary : option string;
  context : InputContext;
  description : string;
  rebindable : bool;
}.

#[global] Instance IInputBinding_eq_dec : EqDecision IInputBinding.
Proof. solve_decision. Defined.

(** The payload a handler receives: [number | InputVector2]. *)
Inductive InputValue :=
  | Num (n : Z)
  | Vector2 (x y : Z).

#[global] Instance InputValue_eq_dec : EqDecision InputValue.
Proof. solve_decision. Defined.

(** A handler is known by its identity only. *)
Definition InputActionHandler := nat.

(** One invocation [handler(state, value)], made while notifying [call_action]. *)
Record Call := {
  call_action : InputActionType;
  call_handler : InputActionHandler;
  call_state : InputState;
  call_value : option InputValue;
}.

#[global] Instance Call_eq_dec : EqDecision Call.
Proof. solve_decision. Defined.

(** An element of a stored array, as the loop of [loadBindings] meets it:
    [null], of which [binding.action] raises a TypeError; a binding, that is
    an object with the properties of [IInputBinding] at their declared types
    ([JSON.stringify] leaves out a property whose value is [undefined], and
    the parsed object has no such property: both are [secondary = None]); or
    any other value, whose [action] is no action at all (a number, a string,
    a boolean, an array, an object without an [action] or with one that is
    not an action type), so that [this.bindings.has] answers false. An
    object whose [action] is an action type but whose other properties are
    missing or of another type is outside the model. *)
Inductive StoredElement :=
  | StoredNull
  | StoredBinding (binding : IInputBinding)
  | StoredOther.

(** The item ['input_bindings'] of [localStorage]: missing (or the empty
    text, which is falsy); a text that [JSON.parse] rejects, or whose value
    cannot be iterated, so that the [for] loop raises at once; or the JSON
    text of an array (or of a string, whose characters count as
    [StoredOther] elements), which is represented by the elements it
    denotes. *)
Inductive StorageItem :=
  | NoItem
  | Malformed
  | JsonArray (bindingsData : list StoredElement).

(** The fields of the class, followed by the two parts of the environment the
    class acts on: the storage item and the log of handler invocations. *)
Record InputService := {
  actionHandlers : JsMap InputActionType (JsSet InputActionHandler);
  bindings : JsMap InputActionType IInputBinding;
  activeContexts : gset InputContext;
  keyStates : JsMap string bool;
  actionStates : gmap InputActionType InputState;
  axisValues : JsMap InputActionType Z;
  localStorage : StorageItem;
  calls : list Call;
}.

Definition with_actionHandlers f (s : InputService) : InputService :=
  {| actionHandlers := f (actionHandlers s); bindings := bindings s;
     activeContexts := activeContexts s; keyStates := keyStates s;
     actionStates := actionStates s; axisValues := axisValues s;
     localStorage := localStorage s; calls := calls s |}.

Definition with_bindings f (s : InputService) : InputService :=
  {| actionHandlers := actionHandlers s; bindings := f (bindings s);
     activeContexts := activeContexts s; keyStates := keyStates s;
     actionStates := actionStates s; axisValues := axisValues s;
     localStorage := localStorage s; calls := calls s |}.

Definition with_activeContexts f (s : InputService) : InputService :=
  {| actionHandlers := actionHandlers s; bindings := bindings s;
     activeContexts := f (activeContexts s); keyStates := keyStates s;
     actionStates := actionStates s; axisValues := axisValues s;
     localStorage := localStorage s; calls := calls s |}.

Definition with_keyStates f (s : InputService) : InputService :=
  {| actionHandlers := actionHandlers s; bindings := bindings s;
     activeContexts := activeContexts s; keyStates := f (keyStates s);
     actionStates := actionStates s; axisValues := axisValues s;
     localStorage := localStorage s; calls := calls s |}.

Definition with_actionStates f (s : InputService) : InputService :=
  {| actionHandlers := actionHandlers s; bindings := bindings s;
     activeContexts := activeContexts s; keyStates := keyStates s;
     actionStates := f (actionStates s); axisValues := axisValues s;
     localStorage := localStorage s; calls := calls s |}.

Definition with_axisValues f (s : InputService) : InputService :=
  {| actionHandlers := actionHandlers s; bindings := bindings s;
     activeContexts := activeContexts s; keyStates := keyStates s;
     actionStates := actionStates s; axisValues := f (axisValues s);
     localStorage := localStorage s; calls := calls s |}.

Definition with_localStorage f (s : InputService) : InputService :=
  {| actionHandlers := actionHandlers s; bindings := bindings s;
     activeContexts := activeContexts s; keyStates := keyStates s;
     actionStates := actionStates s; axisValues := axisValues s;
     localStorage := f (localStorage s); calls := calls s |}.

Definition with_calls f (s : InputService) : InputService :=
  {| actionHandlers := actionHandlers s; bindings := bindings s;
     activeContexts := activeContexts s; keyStates := keyStates s;
     actionStates := actionStates s; axisValues := axisValues s;
     localStorage := localStorage s; calls := f (calls s) |}.

(** [defaultBindings], in the order of the source. *)
Definition mkBinding a p sec c d r : IInputBinding :=
  {| action := a; primary := p; secondary := sec; context := c;
     description := d; rebindable := r |}.

Definition defaultBindings : list IInputBinding :=
  [ mkBinding MOVE_FORWARD "w" (Some "arrowup") PLAYER "Move Forward" true;
    mkBinding MOVE_BACKWARD "s" (Some "arrowdown") PLAYER "Move Backward" true;
    mkBinding MOVE_LEFT "a" (Some "arrowleft") PLAYER "Move Left" true;
    mkBinding MOVE_RIGHT "d" (Some "arrowright") PLAYER "Move Right" true;
    mkBinding JUMP " " None PLAYER "Jump" true;
    mkBinding SPRINT "shift" None PLAYER "Sprint" true;
    mkBinding CROUCH "control" None PLAYER "Crouch" true;
    mkBinding ATTACK_PRIMARY "mouse0" None PLAYER "Attack (Primary)" true;
    mkBinding ATTACK_SECONDARY "mouse1" None PLAYER "Attack (Secondary)" true;
    mkBinding RELOAD "r" None PLAYER "Reload" true;
    mkBinding AIM "mouse1" None PLAYER "Aim" true;
    mkBinding USE_ABILITY_1 "q" None PLAYER "Use Ability 1" true;
    mkBinding USE_ABILITY_2 "e" None PLAYER "Use Ability 2" true;
    mkBinding USE_ABILITY_3 "f" None PLAYER "Use Ability 3" true;
    mkBinding INTERACT "e" None PLAYER "Interact" true;
    mkBinding USE_ITEM "f" None PLAYER "Use Item" true;
    mkBinding MENU_TOGGLE "escape" None PLAYER "Toggle Menu" false;
    mkBinding INVENTORY_TOGGLE "i" None PLAYER "Toggle Inventory" true;
    mkBinding MAP_TOGGLE "m" None PLAYER "Toggle Map" true;
    mkBinding GRAPPLE "mouse1" None PLAYER "Grapple" true;
    mkBinding RELEASE_GRAPPLE " " None PLAYER "Release Grapple" true ].

(** ** Operations that cannot raise *)

Definition registerActionHandler (a : InputActionType) (handler : InputActionHandler)
    (s : InputService) : InputService :=
  let m := actionHandlers s in
  let m1 := if jsmap_has a m then m else jsmap_set a [] m in
  let handlers := default [] (jsmap_get a m1) in
  with_actionHandlers (fun _ => jsmap_set a (jsset_add handler handlers) m1) s.

(** The closure returned by [registerActionHandler]. *)
Definition unregister (a : InputActionType) (handler : InputActionHandler)
    (s : InputService) : InputService :=
  match jsmap_get a (actionHandlers s) with
  | Some handlers =>
      with_actionHandlers (jsmap_set a (jsset_delete handler handlers)) s
  | None => s
  end.

Definition enableContext (c : InputContext) (s : InputService) : InputService :=
  with_activeContexts (fun cs => cs ∪ {[c]}) s.

Definition disableContext (c : InputContext) (s : InputService) : InputService :=
  with_activeContexts (fun cs => cs ∖ {[c]}) s.

Definition isContextEnabled (c : InputContext) (s : InputService) : bool :=
  bool_decide (c ∈ activeContexts s).

Definition getBinding (a : InputActionType) (s : InputService) : option IInputBinding :=
  jsmap_get a (bindings s).

Definition rebindAction (a : InputActionType) (primary' : string)
    (secondary' : option string) (s : InputService) : bool * InputService :=
  match jsmap_get a (bindings s) with
  | None => (false, s)
  | Some binding =>
      if negb (rebindable binding) then (false, s)
      else
        let sec :=
          match secondary' with
          | Some x => if truthy x then Some (toLowerCase x) else None
          | None => None
          end in
        let binding' :=
          {| action := action binding; primary := toLowerCase primary';
             secondary := sec; context := context binding;
             description := description binding;
             rebindable := rebindable binding |} in
        (true, with_bindings (jsmap_set a binding') s)
  end.

Definition resetBindings (s : InputService) : InputService :=
  with_bindings
    (fun _ => foldl (fun m binding => jsmap_set (action binding) binding m) []
                defaultBindings) s.

Definition saveBindings (s : InputService) : InputService :=
  let bindingsData := jsmap_values (bindings s) in
  with_localStorage (fun _ => JsonArray (StoredBinding <$> bindingsData)) s.

(** The loop of [loadBindings], on the binding table. At a [null] element
    [binding.action] raises a TypeError, which leaves the loop; the [catch]
    of [loadBindings] takes it, and the entries written before it stay. *)
Fixpoint loadLoop (bindingsData : list StoredElement)
    (m : JsMap InputActionType IInputBinding) : JsMap InputActionType IInputBinding :=
  match bindingsData with
  | [] => m
  | StoredNull :: _ => m
  | StoredBinding binding :: rest =>
      loadLoop rest
        (if jsmap_has (action binding) m
         then jsmap_set (action binding) binding m else m)
  | StoredOther :: rest => loadLoop rest m
  end.

(** The [try] block either finds no item, or fails before the loop, or runs
    the loop; the [catch] logs the exception and goes on. *)
Definition loadBindings (s : InputService) : InputService :=
  match localStorage s with
  | JsonArray bindingsData => with_bindings (loadLoop bindingsData) s
  | NoItem | Malformed => s
  end.

(** The bindings that the loop of [loadBindings] reads from an array: the
    ones among the elements that come before the first [null]. *)
Fixpoint readBindings (bindingsData : list StoredElement) : list IInputBinding :=
  match bindingsData with
  | [] => []
  | StoredNull :: _ => []
  | StoredBinding binding :: rest => binding :: readBindings rest
  | StoredOther :: rest => readBindings rest
  end.

Definition getAxisValue (a : InputActionType) (s : InputService) : Z :=
  default 0%Z (jsmap_get a (axisValues s)).

Definition getVector2Value (horizontalAction verticalAction : InputActionType)
    (s : InputService) : Z * Z :=
  (getAxisValue horizontalAction s, getAxisValue verticalAction s).

Definition isActionInState (a : InputActionType) (st : InputState)
    (s : InputService) : bool :=
  bool_decide (actionStates s !! a = Some st).

(** [this.keyStates.get(key)] used as a condition. *)
Definition keyPressed (key : string) (s : InputService) : bool :=
  match jsmap_get key (keyStates s) with Some true => true | _ => false end.

Definition isKeyForActionPressed (a : InputActionType) (s : InputService) : bool :=
  match jsmap_get a (bindings s) with
  | None => false
  | Some binding =>
      keyPressed (primary binding) s
      || match secondary binding with
         | Some sec => truthy sec && keyPressed sec s
         | None => false
         end
  end.

Definition updateAxisValues (s : InputService) : InputService :=
  let horizontalValue := 0%Z in
  let horizontalValue :=
    if isKeyForActionPressed MOVE_RIGHT s then (horizontalValue + 1)%Z
    else horizontalValue in
  let horizontalValue :=
    if isKeyForActionPressed MOVE_LEFT s then (horizontalValue - 1)%Z
    else horizontalValue in
  let s := with_axisValues (jsmap_set MOVE_RIGHT horizontalValue) s in
  let verticalValue := 0%Z in
  let verticalValue :=
    if isKeyForActionPressed MOVE_FORWARD s then (verticalValue + 1)%Z
    else verticalValue in
  let verticalValue :=
    if isKeyForActionPressed MOVE_BACKWARD s then (verticalValue - 1)%Z
    else verticalValue in
  with_axisValues (jsmap_set MOVE_FORWARD verticalValue) s.

Definition handleMouseMove (s : InputService) : InputService :=
  with_axisValues (jsmap_set CAMERA_LOOK 0%Z) s.

(** ** Computations that may be cut short by an exception *)

(** How a call ended: it returned, or an exception raised by handler [h]
    left it. *)
Inductive completion (A : Type) :=
  | Normal (a : A)
  | Thrown (h : InputActionHandler).

Arguments Normal {A} a.
Arguments Thrown {A} h.

Definition Eff (A : Type) : Type := InputService -> completion A * InputService.

Definition ret {A} (a : A) : Eff A := fun s => (Normal a, s).

Definition bind {A B} (m : Eff A) (k : A -> Eff B) : Eff B :=
  fun s =>
    match m s with
    | (Normal a, s') => k a s'
    | (Thrown h, s') => (Thrown h, s')
    end.

Definition modify (f : InputService -> InputService) : Eff unit :=
  fun s => (Normal tt, f s).

Declare Scope eff_scope.
Delimit Scope eff_scope with eff.
Notation "m ;; k" := (bind m (fun _ => k))
  (at level 100, k at level 200, right associativity) : eff_scope.
Open Scope eff_scope.

(** [for (const x of xs) body(x)], over the elements present when the loop
    starts. *)
Fixpoint forOf {X} (xs : list X) (body : X -> Eff unit) : Eff unit :=
  match xs with
  | [] => ret tt
  | x :: xs' => body x ;; forOf xs' body
  end.

Definition completed {A} (r : completion A * InputService) : bool :=
  match r.1 with Normal _ => true | Thrown _ => false end.

(** The service after a call, however the call ended. *)
Definition after {A} (r : completion A * InputService) : InputService := r.2.

Definition isMovement (a : InputActionType) : bool :=
  match a with
  | MOVE_FORWARD | MOVE_BACKWARD | MOVE_LEFT | MOVE_RIGHT => true
  | _ => false
  end.

(** The [value] that [notifyActionHandlers] computes for an action. *)
Definition handlerValue (a : InputActionType) (s : InputService) : option InputValue :=
  if isMovement a then Some (Num (getAxisValue a s))
  else if decide (a = CAMERA_LOOK) then Some (Vector2 (getAxisValue CAMERA_LOOK s) 0%Z)
  else None.

(** Raw events of the host, as the listeners of [setupEventListeners] get
    them: [event.key] of a keyboard event, [event.button] of a mouse event. *)
Inductive DomEvent :=
  | KeyDown (key : string)
  | KeyUp (key : string)
  | MouseDown (button : N)
  | MouseUp (button : N)
  | MouseMove
  | Blur.

Definition mouseToken (button : N) : string := "mouse" +:+ pretty button.

Section Dispatch.
(** Whether the invocation [handler(state, value)] raises. *)
Variable raises : InputActionHandler -> InputState -> option InputValue -> bool.

(** [handler(state, value)] *)
Definition invoke (a : InputActionType) (handler : InputActionHandler)
    (st : InputState) (value : option InputValue) : Eff unit :=
  fun s =>
    let s' := with_calls (fun l => l ++ [Build_Call a handler st value]) s in
    if raises handler st value then (Thrown handler, s') else (Normal tt, s').

Definition notifyActionHandlers (a : InputActionType) (st : InputState) : Eff unit :=
  fun s =>
    match jsmap_get a (actionHandlers s) with
    | None => ret tt s
    | Some handlers =>
        let value := handlerValue a s in
        forOf handlers (fun handler => invoke a handler st value) s
    end.

Definition bindingMatches (binding : IInputBinding) (key : string) : bool :=
  bool_decide (primary binding = key)
  || bool_decide (secondary binding = Some key).

Definition processInputChange (key : string) (pressed : bool) : Eff unit :=
  fun s =>
    forOf (bindings s)
      (fun '(actionType, binding) s =>
         if negb (bool_decide (context binding ∈ activeContexts s)) then ret tt s
         else if bindingMatches binding key then
           let newState := if pressed then PRESSED else RELEASED in
           (modify (with_actionStates (insert actionType newState)) ;;
            notifyActionHandlers actionType newState) s
         else ret tt s) s.

Definition handleKeyDown (event_key : string) : Eff unit :=
  let key := toLowerCase event_key in
  fun s =>
    if keyPressed key s then ret tt s
    else
      (modify (with_keyStates (jsmap_set key true)) ;;
       processInputChange key true ;;
       modify updateAxisValues) s.

Definition handleKeyUp (event_key : string) : Eff unit :=
  let key := toLowerCase event_key in
  modify (with_keyStates (jsmap_set key false)) ;;
  processInputChange key false ;;
  modify updateAxisValues.

Definition handleMouseDown (event_button : N) : Eff unit :=
  let button := mouseToken event_button in
  modify (with_keyStates (jsmap_set button true)) ;;
  processInputChange button true.

Definition handleMouseUp (event_button : N) : Eff unit :=
  let button := mouseToken event_button in
  modify (with_keyStates (jsmap_set button false)) ;;
  processInputChange button false.

Definition handleWindowBlur : Eff unit :=
  fun s =>
    (forOf (keyStates s)
       (fun '(key, pressed) =>
          if pressed : bool then
            modify (with_keyStates (jsmap_set key false)) ;;
            processInputChange key false
          else ret tt) ;;
     fun s' =>
       forOf (jsmap_keys (axisValues s'))
         (fun a => modify (with_axisValues (jsmap_set a 0%Z))) s') s.

(** The listener that [setupEventListeners] attached for each event. *)
Definition handleEvent (e : DomEvent) : Eff unit :=
  match e with
  | KeyDown key => handleKeyDown key
  | KeyUp key => handleKeyUp key
  | MouseDown button => handleMouseDown button
  | MouseUp button => handleMouseUp button
  | MouseMove => modify handleMouseMove
  | Blur => handleWindowBlur
  end.
End Dispatch.

(** ** Construction *)

(** The service before the body of the constructor runs: the field
    initialisers, in an environment whose storage item is [item]. *)
Definition fields (item : StorageItem) : InputService :=
  {| actionHandlers := []; bindings := []; activeContexts := ∅;
     keyStates := []; actionStates := ∅; axisValues := [];
     localStorage := item; calls := [] |}.

(** [new InputService()]. Publishing the instance in the service locator
    and attaching the listeners change none of the fields. *)
Definition new_InputService (item : StorageItem) : InputService :=
  let s := fields item in
  let s := resetBindings s in
  let s := loadBindings s in
  enableContext PLAYER s.

(** ** Sessions *)

(** What can happen to a constructed service: a call of its public
    interface, the closure returned by a registration, an event of the host,
    or other code of the page writing the storage item. *)
Inductive Request :=
  | RegisterActionHandler (a : InputActionType) (handler : InputActionHandler)
  | Unregister (a : InputActionType) (handler : InputActionHandler)
  | EnableContext (c : InputContext)
  | DisableContext (c : InputContext)
  | RebindAction (a : InputActionType) (primary' : string) (secondary' : option string)
  | ResetBindings
  | SaveBindings
  | LoadBindings
  | Dom (e : DomEvent)
  | StorageWritten (item : StorageItem).

(** The service after a request. An exception that leaves a listener is
    reported by the host; the service keeps the mutations made before it. *)
Definition step (raises : InputActionHandler -> InputState -> option InputValue -> bool)
    (r : Request) (s : InputService) : InputService :=
  match r with
  | RegisterActionHandler a handler => registerActionHandler a handler s
  | Unregister a handler => unregister a handler s
  | EnableContext c => enableContext c s
  | DisableContext c => disableContext c s
  | RebindAction a p sec => (rebindAction a p sec s).2
  | ResetBindings => resetBindings s
  | SaveBindings => saveBindings s
  | LoadBindings => loadBindings s
  | Dom e => after (handleEvent raises e s)
  | StorageWritten item => with_localStorage (fun _ => item) s
  end.

Definition run (raises : InputActionHandler -> InputState -> option InputValue -> bool)
    (rs : list Request) (s : InputService) : InputService :=
  foldl (fun s r => step raises r s) s rs.

(** No handler registered in [s] raises, whatever it is called with. *)
Definition quiet (raises : InputActionHandler -> InputState -> option InputValue -> bool)
    (s : InputService) : Prop :=
  ∀ a handlers handler st v,
    jsmap_get a (actionHandlers s) = Some handlers →
    handler ∈ handlers →
    raises handler st v = false.

(** The handlers registered for an action, in the order of their set. *)
Definition handlersOf (a : InputActionType) (s : InputService) : list InputActionHandler :=
  default [] (jsmap_get a (actionHandlers s)).

(** A property of the service that a computation keeps, however it ends. *)
Definition preserves {A} (I : InputService -> Prop) (m : Eff A) : Prop :=
  ∀ s, I s → I (m s).2.

(** The two actions that are the negative direction of a movement pair. *)
Definition isNegativeDirection (a : InputActionType) : bool :=
  match a with MOVE_LEFT | MOVE_BACKWARD => true | _ => false end.

(** The actions under which the source stores an axis value. *)
Definition isAxisKey (a : InputActionType) : bool :=
  match a with MOVE_RIGHT | MOVE_FORWARD | CAMERA_LOOK => true | _ => false end.

Definition zeroForNegative (a : InputActionType) (v : option InputValue) : Prop :=
  isNegativeDirection a = true → v = Some (Num 0%Z).

Definition axisStore_ok (s : InputService) : Prop :=
  Forall (fun a => isAxisKey a = true) (jsmap_keys (axisValues s))
  ∧ Forall (fun c => zeroForNegative (call_action c) (call_value c)) (calls s).

(** ** Binding tables *)

(** The table that holds the bindings of a list, each under its own action,
    in the order of the list. *)
Definition table_of (l : list IInputBinding) : JsMap InputActionType IInputBinding :=
  (fun b => (action b, b)) <$> l.

(** A sequence of [rebindAction] calls, whatever each of them returns. *)
Definition rebindAll (rebinds : list (InputActionType * string * option string))
    (s : InputService) : InputService :=
  foldl (fun s '(a, p, sec) => (rebindAction a p sec s).2) s rebinds.

(** ** What a dispatch does when no handler raises *)

(** The state that a raw transition gives to the actions it affects. *)
Definition stateFor (pressed : bool) : InputState :=
  if pressed then PRESSED else RELEASED.

(** The actions of a list of table entries that a transition of [key]
    affects: the binding is on an enabled context and names the key. *)
Fixpoint affectedIn (key : string) (enabled : gset InputContext)
    (entries : list (InputActionType * IInputBinding)) : list InputActionType :=
  match entries with
  | [] => []
  | (a, b) :: entries' =>
      if bool_decide (context b ∈ enabled) && bindingMatches b key
      then a :: affectedIn key enabled entries'
      else affectedIn key enabled entries'
  end.

Definition affected (key : string) (s : InputService) : list InputActionType :=
  affectedIn key (activeContexts s) (bindings s).

(** The invocations that notify the handlers of one action. *)
Definition notification (a : InputActionType) (st : InputState)
    (s : InputService) : list Call :=
  (fun h => Build_Call a h st (handlerValue a s)) <$> handlersOf a s.

(** The service after [processInputChange] when no handler raises: the
    affected actions have the state of the transition, and the handlers of
    each of them were invoked, in the order of the binding table. *)
Definition dispatched (key : string) (pressed : bool) (s : InputService) : InputService :=
  with_calls
    (fun l => l ++ flat_map (fun a => notification a (stateFor pressed) s)
                     (affected key s))
    (with_actionStates
       (fun m => foldl (fun m a => <[a := stateFor pressed]> m) m (affected key s))
       s).

(** The invocations made since [s], in a later state [s']. *)
Definition newCalls (s s' : InputService) : list Call :=
  drop (length (calls s)) (calls s').

(** The value of a movement axis that [updateAxisValues] derives from the
    tracker. *)
Definition axisFor (positiveAction negativeAction : InputActionType)
    (s : InputService) : Z :=
  ((if isKeyForActionPressed positiveAction s then 1 else 0)
   - (if isKeyForActionPressed negativeAction s then 1 else 0))%Z.

(** The stored axis values are the derived ones. *)
Definition axesCurrent (s : InputService) : Prop :=
  getAxisValue MOVE_RIGHT s = axisFor MOVE_RIGHT MOVE_LEFT s
  ∧ getAxisValue MOVE_FORWARD s = axisFor MOVE_FORWARD MOVE_BACKWARD s.

Definition isKeyboardEvent (e : DomEvent) : bool :=
  match e with KeyDown _ | KeyUp _ => true | _ => false end.

(** The control token of an event that presses a control. *)
Definition pressToken (e : DomEvent) : option string :=
  match e with
  | KeyDown key => Some (toLowerCase key)
  | MouseDown button => Some (mouseToken button)
  | _ => None
  end.

(** ** Sample services *)

(** Handlers that always return. *)
Definition neverRaises : InputActionHandler -> InputState -> option InputValue -> bool :=
  fun _ _ _ => false.

(** Handler [h0] raises on every invocation, the other handlers return. *)
Definition onlyRaises (h0 : InputActionHandler)
    : InputActionHandler -> InputState -> option InputValue -> bool :=
  fun h _ _ => bool_decide (h = h0).

(** Handler [h0] raises when it is told of a release, and returns
    otherwise; the other handlers return. *)
Definition raisesOnRelease (h0 : InputActionHandler)
    : InputActionHandler -> InputState -> option InputValue -> bool :=
  fun h st _ => bool_decide (h = h0) && bool_decide (st = RELEASED).

(** A fresh service with one handler on each of the three actions that the
    default table binds to [mouse1]. *)
Definition mouse1Service : InputService :=
  registerActionHandler GRAPPLE 3%nat
    (registerActionHandler AIM 2%nat
       (registerActionHandler ATTACK_SECONDARY 1%nat (new_InputService NoItem))).

(** A fresh service with two handlers on jump and one on release-grapple,
    the two actions that the default table binds to the space key. *)
Definition spaceService : InputService :=
  registerActionHandler RELEASE_GRAPPLE 2%nat
    (registerActionHandler JUMP 1%nat
       (registerActionHandler JUMP 0%nat (new_InputService NoItem))).

(** A fresh service with a handler on each of the four movement actions. *)
Definition movementService : InputService :=
  registerActionHandler MOVE_RIGHT 4%nat
    (registerActionHandler MOVE_LEFT 3%nat
       (registerActionHandler MOVE_BACKWARD 2%nat
          (registerActionHandler MOVE_FORWARD 1%nat (new_InputService NoItem)))).

(** ** What the focus-loss listener does when no handler raises *)

(** The first loop of [handleWindowBlur], over the entries of the tracker. *)
Definition releaseAll (entries : list (string * bool)) (s : InputService) : InputService :=
  foldl (fun t '(key, pressed) =>
           if pressed : bool
           then dispatched key false (with_keyStates (jsmap_set key false) t)
           else t) s entries.

(** The second loop of [handleWindowBlur]. *)
Definition zeroAxes (s : InputService) : InputService :=
  foldl (fun t a => with_axisValues (jsmap_set a 0%Z) t) s
    (jsmap_keys (axisValues s)).

(** The actions that the first loop reaches, in the order it reaches them. *)
Definition released (entries : list (string * bool)) (s : InputService)
    : list InputActionType :=
  flat_map (fun kp => if kp.2 : bool then affected kp.1 s else []) entries.

(** The movement service with three controls held down. *)
Definition heldService : InputService :=
  run neverRaises [Dom (KeyDown "w"); Dom (KeyDown "d"); Dom (MouseDown 1)]
    movementService.

(** ** What an event may dispatch *)

(** An invocation that a transition of [key] may make in [s]: of a handler
    registered for an action that the transition affects, with the state of
    the transition and the value of that action. *)
Definition soundCall (key : string) (pressed : bool) (s : InputService) (c : Call) : Prop :=
  call_action c ∈ affected key s
  ∧ call_handler c ∈ handlersOf (call_action c) s
  ∧ call_state c = stateFor pressed
  ∧ call_value c = handlerValue (call_action c) s.

(** The calls [processInputChange(key, pressed)] that the listener of an
    event makes, at most. *)
Definition transitions (e : DomEvent) (s : InputService) : list (string * bool) :=
  match e with
  | KeyDown key =>
      if keyPressed (toLowerCase key) s then [] else [(toLowerCase key, true)]
  | KeyUp key => [(toLowerCase key, false)]
  | MouseDown button => [(mouseToken button, true)]
  | MouseUp button => [(mouseToken button, false)]
  | MouseMove => []
  | Blur => (fun kp => (kp.1, false)) <$> filter (fun kp => kp.2 = true) (keyStates s)
  end.

(** [t] comes from [s0] by tracker writes and by dispatches of transitions
    of [trs]: the configuration and the axis values are those of [s0], the
    invocations added are sound, and an action state differs only for an
    action that one of the transitions affects. *)
Definition dispatchedBy (trs : list (string * bool)) (s0 t : InputService) : Prop :=
  actionHandlers t = actionHandlers s0
  ∧ bindings t = bindings s0
  ∧ activeContexts t = activeContexts s0
  ∧ axisValues t = axisValues s0
  ∧ localStorage t = localStorage s0
  ∧ (∃ new, calls t = calls s0 ++ new
            ∧ Forall (fun c => ∃ key pressed,
                        (key, pressed) ∈ trs ∧ soundCall key pressed s0 c) new)
  ∧ (∀ a, actionStates t !! a = actionStates s0 !! a
          ∨ ∃ key pressed, (key, pressed) ∈ trs ∧ a ∈ affected key s0
                           ∧ actionStates t !! a = Some (stateFor pressed)).

(** ** What holds in every reachable state *)

(** Every stored axis value is -1, 0 or 1, and the one of camera-look is 0. *)
Definition axisRange (s : InputService) : Prop :=
  Forall (fun kv : InputActionType * Z =>
            (-1 ≤ kv.2 ≤ 1)%Z ∧ (kv.1 = CAMERA_LOOK → kv.2 = 0%Z))
    (axisValues s).

(** The value that goes with an invocation: a number from -1 to 1 for a
    movement action, nothing for another action. *)
Definition payloadOK (c : Call) : Prop :=
  if isMovement (call_action c)
  then ∃ v, call_value c = Some (Num v) ∧ (-1 ≤ v ≤ 1)%Z
  else call_value c = None.

Definition statesOK (s : InputService) : Prop :=
  ∀ a st, actionStates s !! a = Some st →
          st ≠ HELD ∧ a ∈ action <$> defaultBindings.

Definition callsOK (s : InputService) : Prop :=
  Forall (fun c => call_state c ≠ HELD
                   ∧ call_action c ∈ action <$> defaultBindings
                   ∧ payloadOK c) (calls s).

Definition tableOK (s : InputService) : Prop :=
  ∃ l, bindings s = table_of l ∧ action <$> l = action <$> defaultBindings.

Definition serviceOK (s : InputService) : Prop :=
  tableOK s ∧ axisRange s ∧ statesOK s ∧ callsOK s.

(** ** Binding tables that only the service wrote *)

(** The controls of a binding are as [rebindAction] stores them: in lower
    case, and the secondary one, if there is one, not empty. *)
Definition normalised (b : IInputBinding) : Prop :=
  toLowerCase (primary b) = primary b
  ∧ match secondary b with
    | Some x => toLowerCase x = x ∧ truthy x = true
    | None => True
    end.

(** The default binding of an action. *)
Definition defaultOf (a : InputActionType) : option IInputBinding :=
  jsmap_get a (table_of defaultBindings).

(** A binding that differs from the default one of its action in its
    controls only, and not at all when the default one is not rebindable. *)
Definition fromDefault (b : IInputBinding) : Prop :=
  ∃ d, defaultOf (action b) = Some d
       ∧ context b = context d
       ∧ description b = description d
       ∧ rebindable b = rebindable d
       ∧ (rebindable d = false → b = d)
       ∧ normalised b.

Definition ownTable (s : InputService) : Prop :=
  Forall (fun kv : InputActionType * IInputBinding =>
            kv.1 = action kv.2 ∧ fromDefault kv.2) (bindings s)
  ∧ match localStorage s with
    | JsonArray bindingsData => Forall fromDefault (readBindings bindingsData)
    | NoItem | Malformed => True
    end.

(** The request is a write of the storage item by other code of the page. *)
Definition writesStorage (r : Request) : bool :=
  match r with StorageWritten _ => true | _ => false end.

(** The write to the tracker that the listener of an event makes before it
    dispatches: the control token and the value stored under it. *)
Definition trackerWrite (e : DomEvent) : option (string * bool) :=
  match e with
  | KeyDown key => Some (toLowerCase key, true)
  | KeyUp key => Some (toLowerCase key, false)
  | MouseDown button => Some (mouseToken button, true)
  | MouseUp button => Some (mouseToken button, false)
  | MouseMove | Blur => None
  end.

(** * The service locator *)

(** [ServiceLocator], in which the constructor of the input service
    publishes the instance. Its two static fields and the console are the
    state; an implementation is any value, of which [get] looks at the
    truthiness only. *)
Module ServiceLocator.

Inductive ConsoleLine :=
  | ConsoleLog (text : string)
  | ConsoleWarn (text : string).

Section Locator.
Context {T : Type}.
(** Whether an implementation is truthy. *)
Variable truthyValue : T -> bool.

Record Locator := {
  services : gmap string T;
  debug : bool;
  console : list ConsoleLine;
}.

Definition print (line : ConsoleLine) (l : Locator) : Locator :=
  {| services := services l; debug := debug l; console := console l ++ [line] |}.

Definition with_services (f : gmap string T -> gmap string T) (l : Locator) : Locator :=
  {| services := f (services l); debug := debug l; console := console l |}.

(** The class as it is loaded. *)
Definition initial : Locator :=
  {| services := ∅; debug := false; console := [] |}.

Definition setDebug (debug' : bool) (l : Locator) : Locator :=
  {| services := services l; debug := debug'; console := console l |}.

Definition register (serviceType : string) (implementation : T) (l : Locator) : Locator :=
  let l := if debug l then print (ConsoleLog ("Registering service: " +:+ serviceType)) l
           else l in
  with_services (insert serviceType implementation) l.

Definition get (serviceType : string) (l : Locator) : option T * Locator :=
  let service := services l !! serviceType in
  let notService :=
    match service with Some v => negb (truthyValue v) | None => true end in
  let l' := if notService && debug l
            then print (ConsoleWarn ("Service not found: " +:+ serviceType)) l
            else l in
  (match service with
   | Some v => if truthyValue v then Some v else None
   | None => None
   end, l').

Definition has (serviceType : string) (l : Locator) : bool :=
  bool_decide (is_Some (services l !! serviceType)).

Definition unregister (serviceType : string) (l : Locator) : Locator :=
  if has serviceType l then
    let l := with_services (delete serviceType) l in
    if debug l then print (ConsoleLog ("Unregistered service: " +:+ serviceType)) l
    else l
  else l.

Definition clear (l : Locator) : Locator :=
  let l := with_services (fun _ => ∅) l in
  if debug l then print (ConsoleLog "All services cleared") l else l.

(** A call of the class. *)
Inductive Call :=
  | SetDebug (debug' : bool)
  | Register (serviceType : string) (implementation : T)
  | Get (serviceType : string)
  | Has (serviceType : string)
  | Unregister (serviceType : string)
  | Clear.

Definition call (c : Call) (l : Locator) : Locator :=
  match c with
  | SetDebug debug' => setDebug debug' l
  | Register serviceType implementation => register serviceType implementation l
  | Get serviceType => (get serviceType l).2
  | Has _ => l
  | Unregister serviceType => unregister serviceType l
  | Clear => clear l
  end.

Definition calls (cs : list Call) (l : Locator) : Locator :=
  foldl (fun l c => call c l) l cs.

(** The call registers, unregisters or clears the entry of [serviceType]. *)
Definition touches (serviceType : string) (c : Call) : bool :=
  match c with
  | Register x _ | Unregister x => bool_decide (x = serviceType)
  | Clear => true
  | SetDebug _ | Get _ | Has _ => false
  end.

Definition turnsDebugOn (c : Call) : bool :=
  match c with SetDebug true => true | _ => false end.
End Locator.

Arguments Locator T : clear implicits.
Arguments Call T : clear implicits.
Arguments initial {T}.
End ServiceLocator.

(** The name under which the input service is published. *)
Definition ServiceTypes_INPUT : string := "input-service".

(** ** How a listener ends *)

(** How a call that started in [s] ended, told by the invocations it made:
    when it returned, none of them raised; when an exception left it, the
    invocations before the last one returned and the last one raised it. *)
Definition traced (raises : InputActionHandler -> InputState -> option InputValue -> bool)
    {A} (s : InputService) (r : completion A * InputService) : Prop :=
  ∃ new,
    calls r.2 = calls s ++ new
    ∧ match r.1 with
      | Normal _ =>
          Forall (fun c => raises (call_handler c) (call_state c) (call_value c)
                           = false) new
      | Thrown h =>
          ∃ before c,
            new = before ++ [c]
            ∧ Forall (fun c => raises (call_handler c) (call_state c) (call_value c)
                               = false) before
            ∧ call_handler c = h
            ∧ raises h (call_state c) (call_value c) = true
      end.

(** * Properties *)

(** ** Facts about insertion-ordered maps *)

Section JsMapFacts.
Context {K V : Type} `{EqDecision K}.
Implicit Types (m : JsMap K V) (k : K) (v : V).

Lemma jsmap_get_set_eq k v m : jsmap_get k (jsmap_set k v m) = Some v.
Proof.
  induction m as [|[k' v'] m IH]; simpl.
  - by rewrite decide_True.
  - destruct (decide (k = k')) as [->|Hne]; simpl.
    + by rewrite decide_True.
    + by rewrite decide_False.
Qed.

Lemma jsmap_get_set_ne k k' v m :
  k ≠ k' → jsmap_get k' (jsmap_set k v m) = jsmap_get k' m.
Proof.
  intros Hne. induction m as [|[k0 v0] m IH]; simpl.
  - by rewrite decide_False.
  - destruct (decide (k = k0)) as [->|Hk]; simpl.
    + by rewrite !decide_False.
    + destruct (decide (k' = k0)); done.
Qed.

Lemma jsmap_keys_set k v v0 m :
  jsmap_get k m = Some v0 → jsmap_keys (jsmap_set k v m) = jsmap_keys m.
Proof.
  unfold jsmap_keys. induction m as [|[k' v'] m IH]; simpl; [done|].
  destruct (decide (k = k')) as [->|Hk]; simpl; [done|].
  intros Hget. f_equal. by apply IH.
Qed.

Lemma jsmap_get_Some_elem k v m : jsmap_get k m = Some v → (k, v) ∈ m.
Proof.
  induction m as [|[k' v'] m IH]; simpl; [done|].
  destruct (decide (k = k')) as [->|Hk].
  - intros [= ->]. left.
  - intros Hget. right. by apply IH.
Qed.

Lemma jsmap_get_None_keys k m : jsmap_get k m = None ↔ k ∉ jsmap_keys m.
Proof.
  unfold jsmap_keys. induction m as [|[k' v'] m IH]; simpl.
  - split; [intros _; apply not_elem_of_nil | done].
  - rewrite not_elem_of_cons. destruct (decide (k = k')) as [->|Hk].
    + split; [done | by intros [? _]].
    + rewrite IH. tauto.
Qed.

Lemma jsmap_has_true k m : jsmap_has k m = true ↔ k ∈ jsmap_keys m.
Proof.
  unfold jsmap_has. destruct (jsmap_get k m) as [v|] eqn:Hget.
  - split; [intros _ | done].
    destruct (decide (k ∈ jsmap_keys m)) as [|Hn]; [done|].
    apply jsmap_get_None_keys in Hn. congruence.
  - split; [done|]. intros Hin. by apply jsmap_get_None_keys in Hget.
Qed.
End JsMapFacts.

(** ** Rebinding *)

(** C7. For an action that has no binding, or whose binding is not
    rebindable, [rebindAction] returns [false] and leaves the binding table
    (and every other field of the service) as it was. The call is a plain
    function of the service: it has no abrupt completion. *)
Theorem rebindAction_refused (a : InputActionType) (p : string)
    (sec : option string) (s : InputService) :
  getBinding a s = None
    ∨ (∃ b, getBinding a s = Some b ∧ rebindable b = false) →
  rebindAction a p sec s = (false, s).
Proof.
  unfold getBinding, rebindAction.
  intros [-> | (b & -> & Hb)]; [done|]. by rewrite Hb.
Qed.

Lemma rebindAction_refused_witness :
  (getBinding MENU_TOGGLE (new_InputService NoItem) = None
   ∨ (∃ b, getBinding MENU_TOGGLE (new_InputService NoItem) = Some b
           ∧ rebindable b = false))
  ∧ rebindAction MENU_TOGGLE "F10" (Some "m") (new_InputService NoItem)
    = (false, new_InputService NoItem).
Proof.
  assert (H : getBinding MENU_TOGGLE (new_InputService NoItem) = None
    ∨ (∃ b, getBinding MENU_TOGGLE (new_InputService NoItem) = Some b
            ∧ rebindable b = false)).
  { right. eexists. split; [vm_compute; reflexivity | reflexivity]. }
  split; [exact H | exact (rebindAction_refused _ _ _ _ H)].
Defined.

(** C8, as the code has it. For an action with a rebindable binding,
    [rebindAction] returns
    [true]; the binding of the action keeps its action, context, description
    and rebindable flag, its primary control is the lower-cased argument, its
    secondary control is the lower-cased argument when a (non-empty) one is
    given and absent when it is omitted (or empty, which the source takes
    for omitted); the binding of every other action,
    the order of the table and every other field are unchanged. *)
Theorem rebindAction_success (a : InputActionType) (p : string)
    (sec : option string) (s : InputService) (b : IInputBinding) :
  getBinding a s = Some b →
  rebindable b = true →
  ∃ s' b',
    rebindAction a p sec s = (true, s')
    ∧ getBinding a s' = Some b'
    ∧ primary b' = toLowerCase p
    ∧ (∀ x, sec = Some x → x ≠ "" → secondary b' = Some (toLowerCase x))
    ∧ (sec = None ∨ sec = Some "" → secondary b' = None)
    ∧ action b' = action b
    ∧ context b' = context b
    ∧ description b' = description b
    ∧ rebindable b' = rebindable b
    ∧ (∀ a', a' ≠ a → getBinding a' s' = getBinding a' s)
    ∧ jsmap_keys (bindings s') = jsmap_keys (bindings s)
    ∧ s' = with_bindings (fun _ => bindings s') s.
Proof.
  unfold getBinding, rebindAction. intros Hget Hb. rewrite Hget, Hb. simpl.
  eexists _, _. split; [reflexivity|]. simpl.
  split; [apply jsmap_get_set_eq|]. simpl.
  repeat split.
  - intros x -> Hx. simpl. by destruct x.
  - by intros [-> | ->].
  - intros a' Hne. by apply jsmap_get_set_ne.
  - by eapply jsmap_keys_set.
Qed.

Lemma rebindAction_success_witness :
  ∃ s' b',
    rebindAction JUMP "K" (Some "J") (new_InputService NoItem) = (true, s')
    ∧ getBinding JUMP s' = Some b'
    ∧ primary b' = "k" ∧ secondary b' = Some "j"
    ∧ context b' = PLAYER ∧ description b' = "Jump" ∧ rebindable b' = true.
Proof.
  destruct (rebindAction_success JUMP "K" (Some "J") (new_InputService NoItem)
              (mkBinding JUMP " " None PLAYER "Jump" true))
    as (s' & b' & Hr & Hg & Hp & Hs & _ & _ & Hc & Hd & Hrb & _).
  - vm_compute; reflexivity.
  - reflexivity.
  - exists s', b'. repeat split; try done.
    exact (Hs "J" eq_refl ltac:(discriminate)).
Defined.

(** C8, as the claim states it, fails: a secondary control that is given,
    as the empty string, is not stored in lower case as the secondary
    control of the binding; the rebinding succeeds and the binding has no
    secondary control afterwards, as if the argument had been omitted
    ([if (secondary)] takes the empty string for no argument). *)
Lemma rebindAction_given_empty_secondary_is_cleared :
  let r := rebindAction MOVE_FORWARD "w" (Some "") (new_InputService NoItem) in
  r.1 = true
  ∧ secondary <$> getBinding MOVE_FORWARD (new_InputService NoItem)
    = Some (Some "arrowup")
  ∧ secondary <$> getBinding MOVE_FORWARD r.2 = Some None
  ∧ secondary <$> getBinding MOVE_FORWARD r.2 ≠ Some (Some (toLowerCase "")).
Proof. by vm_compute. Qed.

(** ** Properties kept by every computation *)

Section Preserves.
Context (I : InputService → Prop).

Lemma preserves_ret {A} (a : A) : preserves I (ret a).
Proof. by intros s Hs. Qed.

Lemma preserves_modify f : (∀ s, I s → I (f s)) → preserves I (modify f).
Proof. intros Hf s Hs. by apply Hf. Qed.

Lemma preserves_bind {A B} (m : Eff A) (k : A → Eff B) :
  preserves I m → (∀ a, preserves I (k a)) → preserves I (bind m k).
Proof.
  intros Hm Hk s Hs. unfold bind. specialize (Hm s Hs).
  destruct (m s) as [[a|h] s']; simpl in *; [by apply Hk | done].
Qed.

Lemma preserves_forOf {X} (xs : list X) (body : X → Eff unit) :
  (∀ x, x ∈ xs → preserves I (body x)) → preserves I (forOf xs body).
Proof.
  induction xs as [|x xs IH]; intros Hbody; simpl.
  - apply preserves_ret.
  - apply preserves_bind; [apply Hbody; left|].
    intros _. apply IH. intros y Hy. apply Hbody. by right.
Qed.
End Preserves.

Lemma jsmap_keys_set_mono {K V} `{EqDecision K} (k x : K) (v : V) (m : JsMap K V) :
  x ∈ jsmap_keys m → x ∈ jsmap_keys (jsmap_set k v m).
Proof.
  unfold jsmap_keys. induction m as [|[k' v'] m IH]; simpl.
  - by intros ?%elem_of_nil.
  - destruct (decide (k = k')) as [->|Hk]; simpl; [done|].
    rewrite !elem_of_cons. intros [->|Hx]; [by left | right; by apply IH].
Qed.

Lemma jsmap_keys_set_inv {K V} `{EqDecision K} (k x : K) (v : V) (m : JsMap K V) :
  x ∈ jsmap_keys (jsmap_set k v m) → x = k ∨ x ∈ jsmap_keys m.
Proof.
  unfold jsmap_keys. induction m as [|[k' v'] m IH]; simpl.
  - intros ->%list_elem_of_singleton. by left.
  - destruct (decide (k = k')) as [->|Hk]; simpl; rewrite !elem_of_cons.
    + intros [->|Hx]; [by left | right; by right].
    + intros [->|Hx]; [right; by left|].
      destruct (IH Hx) as [->|Hm]; [by left | right; by right].
Qed.

Section DispatchFrame.
Context (raises : InputActionHandler → InputState → option InputValue → bool).
Context (I : InputService → Prop).
(** [I] does not look at the action states or at the key states, it admits
    the invocations that [notifyActionHandlers] makes, and it admits a
    write to the axis values under a key that is there already or that is
    one of the keys the source writes. *)
Hypothesis I_actionStates : ∀ f s, I s → I (with_actionStates f s).
Hypothesis I_keyStates : ∀ f s, I s → I (with_keyStates f s).
Hypothesis I_call : ∀ a h st s,
  I s → I (with_calls (fun l => l ++ [Build_Call a h st (handlerValue a s)]) s).
Hypothesis I_axis : ∀ a v s,
  I s → isAxisKey a = true ∨ a ∈ jsmap_keys (axisValues s) →
  I (with_axisValues (jsmap_set a v) s).

Lemma preserves_invoke_loop a st v handlers :
  preserves (fun t => I t ∧ handlerValue a t = v)
    (forOf handlers (fun h => invoke raises a h st v)).
Proof.
  apply preserves_forOf. intros h _ t [Ht <-]. unfold invoke.
  destruct (raises h st _); simpl; (split; [by apply I_call | done]).
Qed.

Lemma preserves_notifyActionHandlers a st :
  preserves I (notifyActionHandlers raises a st).
Proof.
  intros s Hs. unfold notifyActionHandlers.
  destruct (jsmap_get a (actionHandlers s)) as [handlers|]; [|done].
  by apply (preserves_invoke_loop a st (handlerValue a s) handlers s).
Qed.

Lemma preserves_processInputChange key pressed :
  preserves I (processInputChange raises key pressed).
Proof.
  intros s Hs. unfold processInputChange. revert Hs.
  generalize (bindings s). intros bs. revert s.
  apply (preserves_forOf I bs). intros [a b] _ s Hs.
  destruct (negb _); [done|]. destruct (bindingMatches b key); [|done].
  revert s Hs. apply preserves_bind.
  - apply preserves_modify. intros s. apply I_actionStates.
  - intros _. apply preserves_notifyActionHandlers.
Qed.

Lemma preserves_updateAxisValues s : I s → I (updateAxisValues s).
Proof.
  intros Hs. unfold updateAxisValues.
  apply I_axis; [|by left]. apply I_axis; [done | by left].
Qed.

Lemma preserves_axis_reset ks :
  preserves (fun t => I t ∧ ∀ a, a ∈ ks → a ∈ jsmap_keys (axisValues t))
    (forOf ks (fun a => modify (with_axisValues (jsmap_set a 0%Z)))).
Proof.
  apply preserves_forOf. intros a Ha t [Ht Hks]. simpl. split.
  - apply I_axis; [done | right; by apply Hks].
  - intros a' Ha'. by apply jsmap_keys_set_mono, Hks.
Qed.

(** A listener is a sequence of tracker writes, dispatches and axis
    updates; each of them keeps [I]. *)
Ltac listener_keeps :=
  repeat (apply preserves_bind; [|intros _]);
  first
    [ apply preserves_processInputChange
    | apply preserves_modify; intros ?;
      first [apply I_keyStates | apply preserves_updateAxisValues] ].

Lemma preserves_handleEvent e : preserves I (handleEvent raises e).
Proof.
  destruct e as [key|key|button|button| |]; simpl.
  - intros s Hs. unfold handleKeyDown. destruct (keyPressed _ s); [done|].
    revert s Hs. listener_keeps.
  - unfold handleKeyUp. listener_keeps.
  - unfold handleMouseDown. listener_keeps.
  - unfold handleMouseUp. listener_keeps.
  - apply preserves_modify. intros s Hs. apply I_axis; [done | by left].
  - intros s Hs. unfold handleWindowBlur. revert Hs.
    generalize (keyStates s). intros ks. revert s.
    apply (preserves_bind I).
    + apply preserves_forOf. intros [key pressed] _.
      destruct pressed; [listener_keeps | apply preserves_ret].
    + intros _ s Hs.
      by apply (preserves_axis_reset (jsmap_keys (axisValues s)) s).
Qed.
End DispatchFrame.

(** ** The context gate *)

Lemma handleEvent_activeContexts raises e s :
  activeContexts (after (handleEvent raises e s)) = activeContexts s.
Proof.
  by apply (preserves_handleEvent raises
              (fun t => activeContexts t = activeContexts s)).
Qed.

Lemma rebindAction_activeContexts a p sec s :
  activeContexts (rebindAction a p sec s).2 = activeContexts s.
Proof.
  unfold rebindAction. destruct (jsmap_get a (bindings s)) as [b|]; [|done].
  by destruct (negb (rebindable b)).
Qed.

Lemma unregister_activeContexts a h s :
  activeContexts (unregister a h s) = activeContexts s.
Proof. unfold unregister. by destruct (jsmap_get a (actionHandlers s)). Qed.

Lemma loadBindings_activeContexts s :
  activeContexts (loadBindings s) = activeContexts s.
Proof. unfold loadBindings. by destruct (localStorage s). Qed.

(** C9, as the code has it. After construction the set of enabled contexts
    is exactly the player context, which the constructor enables; from then
    on a request changes the set only if it is [enableContext], which adds
    its context, or [disableContext], which removes it. *)
Theorem contextGate_lifecycle
    (raises : InputActionHandler → InputState → option InputValue → bool) :
  (∀ item, activeContexts (new_InputService item) = {[PLAYER]})
  ∧ (∀ r s,
       activeContexts (step raises r s) =
       match r with
       | EnableContext c => activeContexts s ∪ {[c]}
       | DisableContext c => activeContexts s ∖ {[c]}
       | _ => activeContexts s
       end).
Proof.
  split.
  - intros item. unfold new_InputService, enableContext. simpl.
    rewrite loadBindings_activeContexts. simpl. set_solver.
  - intros [a h|a h|c|c|a p sec| | | |e|item] s; simpl; try done.
    + apply unregister_activeContexts.
    + apply rebindAction_activeContexts.
    + apply loadBindings_activeContexts.
    + apply handleEvent_activeContexts.
Qed.

(** C9, as the claim states it, fails: the context gate of a service that was
    just constructed is not empty. *)
Lemma contextGate_empty_after_construction_fails :
  activeContexts (new_InputService NoItem) ≠ ∅
  ∧ isContextEnabled PLAYER (new_InputService NoItem) = true.
Proof.
  split; [|by vm_compute].
  intros H. assert (Hin : PLAYER ∈ activeContexts (new_InputService NoItem)).
  { unfold new_InputService, enableContext. simpl. set_solver. }
  rewrite H in Hin. set_solver.
Qed.

(** ** The axis store *)

Lemma axisStore_ok_call a h st s :
  axisStore_ok s →
  axisStore_ok (with_calls (fun l => l ++ [Build_Call a h st (handlerValue a s)]) s).
Proof.
  intros [Hkeys Hcalls]. split; [done|]. simpl.
  apply Forall_app. split; [done|]. apply Forall_singleton. simpl.
  intros Hneg. unfold handlerValue.
  assert (Hmov : isMovement a = true) by (by destruct a).
  rewrite Hmov. do 2 f_equal. unfold getAxisValue.
  destruct (jsmap_get a (axisValues s)) as [v|] eqn:Hget; [|done].
  apply jsmap_get_Some_elem in Hget.
  assert (Ha : a ∈ jsmap_keys (axisValues s)).
  { unfold jsmap_keys. apply list_elem_of_fmap. by exists (a, v). }
  rewrite Forall_forall in Hkeys. apply Hkeys in Ha. by destruct a.
Qed.

Lemma axisStore_ok_axis a v s :
  axisStore_ok s →
  isAxisKey a = true ∨ a ∈ jsmap_keys (axisValues s) →
  axisStore_ok (with_axisValues (jsmap_set a v) s).
Proof.
  intros [Hkeys Hcalls] Ha. split; [|done]. simpl.
  rewrite Forall_forall in Hkeys. apply Forall_forall. intros x Hx.
  apply jsmap_keys_set_inv in Hx as [->|Hx]; [|by apply Hkeys].
  destruct Ha as [Ha|Ha]; [done | by apply Hkeys].
Qed.

Lemma axisStore_ok_step raises r s :
  axisStore_ok s → axisStore_ok (step raises r s).
Proof.
  intros Hs. destruct r as [a h|a h|c|c|a p sec| | | |e|item]; simpl; try done.
  - unfold unregister. by destruct (jsmap_get a (actionHandlers s)).
  - unfold rebindAction. destruct (jsmap_get a (bindings s)) as [b|]; [|done].
    by destruct (negb (rebindable b)).
  - unfold loadBindings. by destruct (localStorage s).
  - apply (preserves_handleEvent raises axisStore_ok); try done.
    + intros. by apply axisStore_ok_call.
    + intros. by apply axisStore_ok_axis.
Qed.

Lemma axisStore_ok_new item : axisStore_ok (new_InputService item).
Proof.
  unfold new_InputService, enableContext, loadBindings. simpl.
  destruct item; split; simpl; constructor.
Qed.

Lemma axisStore_ok_run raises rs s :
  axisStore_ok s → axisStore_ok (run raises rs s).
Proof.
  revert s. induction rs as [|r rs IH]; intros s Hs; simpl; [done|].
  by apply IH, axisStore_ok_step.
Qed.

(** C10. In every state that a constructed service reaches, the axis values
    are stored under move-right, move-forward and camera-look only; so
    [getAxisValue] is 0 for move-left and move-backward, and every
    invocation that was made while notifying one of these two actions
    carried the value 0. *)
Theorem negative_direction_axis_zero
    (raises : InputActionHandler → InputState → option InputValue → bool)
    (item : StorageItem) (rs : list Request) :
  let s := run raises rs (new_InputService item) in
  getAxisValue MOVE_LEFT s = 0%Z
  ∧ getAxisValue MOVE_BACKWARD s = 0%Z
  ∧ (∀ a, a ∈ jsmap_keys (axisValues s) →
          a = MOVE_RIGHT ∨ a = MOVE_FORWARD ∨ a = CAMERA_LOOK)
  ∧ (∀ c, c ∈ calls s →
          call_action c = MOVE_LEFT ∨ call_action c = MOVE_BACKWARD →
          call_value c = Some (Num 0%Z)).
Proof.
  intros s.
  assert (Hok : axisStore_ok s) by apply axisStore_ok_run, axisStore_ok_new.
  destruct Hok as [Hkeys Hcalls].
  rewrite Forall_forall in Hkeys. rewrite Forall_forall in Hcalls.
  assert (Hnone : ∀ a, isAxisKey a = false → getAxisValue a s = 0%Z).
  { intros a Ha. unfold getAxisValue.
    destruct (jsmap_get a (axisValues s)) as [v|] eqn:Hget; [|done].
    apply jsmap_get_Some_elem in Hget.
    assert (Hin : a ∈ jsmap_keys (axisValues s)).
    { unfold jsmap_keys. apply list_elem_of_fmap. by exists (a, v). }
    apply Hkeys in Hin. congruence. }
  repeat split.
  - by apply Hnone.
  - by apply Hnone.
  - intros a Ha. apply Hkeys in Ha. destruct a; try done; auto.
  - intros c Hc Hneg. apply (Hcalls c Hc). by destruct Hneg as [-> | ->].
Qed.

(** ** Saving and loading the binding table *)

Lemma jsmap_values_table_of l : jsmap_values (table_of l) = l.
Proof.
  unfold jsmap_values, table_of. induction l as [|b l IH]; simpl; [done|].
  by f_equal.
Qed.

Lemma jsmap_keys_table_of l : jsmap_keys (table_of l) = action <$> l.
Proof.
  unfold jsmap_keys, table_of. induction l as [|b l IH]; simpl; [done|].
  by f_equal.
Qed.

Lemma resetBindings_table s : bindings (resetBindings s) = table_of defaultBindings.
Proof. reflexivity. Qed.

(** Writing a binding under its own action, into a table that has the action
    at the place of [x] and not before it, replaces [x]. *)
Lemma jsmap_set_table_of l1 x b l2 :
  action b = action x →
  action b ∉ action <$> l1 →
  jsmap_set (action b) b (table_of (l1 ++ x :: l2)) = table_of (l1 ++ b :: l2).
Proof.
  intros Hx. unfold table_of. induction l1 as [|y l1 IH]; simpl.
  - intros _. by rewrite Hx, decide_True.
  - rewrite not_elem_of_cons. intros [Hy Hl1].
    rewrite decide_False by done. f_equal. by apply IH.
Qed.

Lemma table_of_get_action a b l :
  jsmap_get a (table_of l) = Some b → action b = a.
Proof.
  unfold table_of. induction l as [|y l IH]; csimpl; [done|].
  destruct (decide (a = action y)) as [->|Hne]; [by intros [= ->] | done].
Qed.

(** Writing a binding under its own action, into a table that has an entry
    for that action, keeps the shape of the table. *)
Lemma jsmap_set_table_shape b b0 l :
  jsmap_get (action b) (table_of l) = Some b0 →
  ∃ l', jsmap_set (action b) b (table_of l) = table_of l'
        ∧ action <$> l' = action <$> l.
Proof.
  unfold table_of. induction l as [|y l IH]; csimpl; [done|].
  destruct (decide (action b = action y)) as [Heq|Hne].
  - intros _. exists (b :: l). csimpl. by rewrite Heq.
  - intros Hget. destruct (IH Hget) as (l' & Hl' & Hacts).
    exists (y :: l').
    split; [exact (f_equal (cons _) Hl') | exact (f_equal (cons _) Hacts)].
Qed.

Lemma rebindAction_table a p sec s l :
  bindings s = table_of l →
  ∃ l', bindings (rebindAction a p sec s).2 = table_of l'
        ∧ action <$> l' = action <$> l.
Proof.
  intros Hl. unfold rebindAction.
  destruct (jsmap_get a (bindings s)) as [b|] eqn:Hget; [|by exists l].
  destruct (negb (rebindable b)); [by exists l|]. simpl.
  rewrite Hl in Hget |- *.
  pose proof (table_of_get_action a b l Hget) as Ha. subst a.
  by apply (jsmap_set_table_shape
              (mkBinding (action b) _ _ (context b) (description b) (rebindable b))
              b l).
Qed.

Lemma rebindAll_table rebinds s l :
  bindings s = table_of l →
  ∃ l', bindings (rebindAll rebinds s) = table_of l'
        ∧ action <$> l' = action <$> l.
Proof.
  revert s l. induction rebinds as [|[[a p] sec] rebinds IH]; intros s l Hl.
  - by exists l.
  - simpl. destruct (rebindAction_table a p sec s l Hl) as (l1 & Hl1 & Hacts1).
    destruct (IH _ l1 Hl1) as (l2 & Hl2 & Hacts2).
    exists l2. split; [done | congruence].
Qed.

(** [loadBindings], started on a table whose first bindings were loaded
    already. *)
Lemma loadBindings_fold l1 l2 d2 :
  action <$> l2 = action <$> d2 →
  NoDup (action <$> (l1 ++ l2)) →
  foldl (fun m binding =>
           if jsmap_has (action binding) m
           then jsmap_set (action binding) binding m else m)
    (table_of (l1 ++ d2)) l2
  = table_of (l1 ++ l2).
Proof.
  revert l1 d2. induction l2 as [|b l2 IH]; intros l1 d2 Hacts Hnd.
  - destruct d2; [done | discriminate].
  - destruct d2 as [|x d2]; [discriminate|]. simpl in Hacts.
    injection Hacts as Hb Hacts. simpl.
    assert (Hfresh : action b ∉ action <$> l1).
    { rewrite fmap_app in Hnd. apply NoDup_app in Hnd as (_ & Hdisj & _).
      intros Hin. apply (Hdisj _ Hin). simpl. left. }
    assert (Hhas : jsmap_has (action b) (table_of (l1 ++ x :: d2)) = true).
    { apply jsmap_has_true. rewrite jsmap_keys_table_of, fmap_app.
      apply elem_of_app. right. simpl. rewrite Hb. left. }
    rewrite Hhas, (jsmap_set_table_of l1 x b d2 Hb Hfresh).
    rewrite (cons_middle b l1 d2), (cons_middle b l1 l2), !app_assoc.
    apply IH; [done|]. by rewrite <- app_assoc.
Qed.

(** The loop writes the bindings it reads, in their order. *)
Lemma loadLoop_fold bindingsData m :
  loadLoop bindingsData m
  = foldl (fun m binding =>
             if jsmap_has (action binding) m
             then jsmap_set (action binding) binding m else m)
      m (readBindings bindingsData).
Proof.
  revert m. induction bindingsData as [|[|b|] bindingsData IH]; intros m;
    simpl; [done | done | apply IH | apply IH].
Qed.

Lemma readBindings_stored l : readBindings (StoredBinding <$> l) = l.
Proof. induction l as [|b l IH]; csimpl; [done | by rewrite IH]. Qed.

Lemma loadBindings_bindings s :
  bindings (loadBindings s) =
  match localStorage s with
  | JsonArray bindingsData =>
      foldl (fun m binding =>
               if jsmap_has (action binding) m
               then jsmap_set (action binding) binding m else m)
        (bindings s) (readBindings bindingsData)
  | NoItem | Malformed => bindings s
  end.
Proof.
  unfold loadBindings. destruct (localStorage s); [done | done |].
  apply loadLoop_fold.
Qed.

Lemma defaultBindings_NoDup : NoDup (action <$> defaultBindings).
Proof. apply (bool_decide_unpack _). by vm_compute. Qed.

(** A table that has the actions of the default table, in their order, and
    each binding under its own action, survives the round trip. *)
Lemma roundtrip_of_shape s l :
  bindings s = table_of l →
  action <$> l = action <$> defaultBindings →
  bindings (loadBindings (resetBindings (saveBindings s))) = bindings s.
Proof.
  intros Hl Hacts. rewrite loadBindings_bindings.
  change (localStorage (resetBindings (saveBindings s)))
    with (JsonArray (StoredBinding <$> jsmap_values (bindings s))).
  cbv beta iota.
  rewrite readBindings_stored, resetBindings_table, Hl, jsmap_values_table_of.
  apply (loadBindings_fold [] l defaultBindings Hacts).
  rewrite app_nil_l, Hacts. apply defaultBindings_NoDup.
Qed.

(** C2. After any sequence of [rebindAction] calls on the default table,
    [saveBindings], then [resetBindings], then [loadBindings] give back the
    table as it was when it was saved: the same actions in the same order,
    each with the same binding. The storage item is what [saveBindings]
    wrote. *)
Theorem save_reset_load_roundtrip
    (rebinds : list (InputActionType * string * option string))
    (s0 : InputService) :
  let s := rebindAll rebinds (resetBindings s0) in
  bindings (loadBindings (resetBindings (saveBindings s))) = bindings s
  ∧ ∀ a, getBinding a (loadBindings (resetBindings (saveBindings s)))
         = getBinding a s.
Proof.
  intros s.
  destruct (rebindAll_table rebinds (resetBindings s0) defaultBindings
              (resetBindings_table s0)) as (l & Hl & Hacts).
  fold s in Hl.
  pose proof (roundtrip_of_shape s l Hl Hacts) as Heq.
  split; [exact Heq|]. intros a. unfold getBinding. by rewrite Heq.
Qed.

(** ** The binding table of a running service *)

Lemma loadBindings_fold_shape (bindingsData l : list IInputBinding) :
  ∃ l',
    foldl (fun m binding =>
             if jsmap_has (action binding) m
             then jsmap_set (action binding) binding m else m)
      (table_of l) bindingsData
    = table_of l'
    ∧ action <$> l' = action <$> l.
Proof.
  revert l. induction bindingsData as [|b bindingsData IH]; intros l; simpl.
  - by exists l.
  - unfold jsmap_has.
    destruct (jsmap_get (action b) (table_of l)) as [b0|] eqn:Hget; [|apply IH].
    destruct (jsmap_set_table_shape b b0 l Hget) as (l1 & -> & Hacts1).
    destruct (IH l1) as (l2 & Hl2 & Hacts2).
    exists l2. split; [done | by etrans].
Qed.

Lemma handleEvent_bindings raises e s :
  bindings (after (handleEvent raises e s)) = bindings s.
Proof.
  by apply (preserves_handleEvent raises (fun t => bindings t = bindings s)).
Qed.

Lemma loadBindings_table s l :
  bindings s = table_of l →
  ∃ l', bindings (loadBindings s) = table_of l'
        ∧ action <$> l' = action <$> l.
Proof.
  intros Hl. rewrite loadBindings_bindings, Hl.
  destruct (localStorage s); [by exists l | by exists l |].
  apply loadBindings_fold_shape.
Qed.

Lemma step_table raises r s l :
  bindings s = table_of l →
  action <$> l = action <$> defaultBindings →
  ∃ l', bindings (step raises r s) = table_of l'
        ∧ action <$> l' = action <$> defaultBindings.
Proof.
  intros Hl Hacts.
  destruct r as [a h|a h|c|c|a p sec| | | |e|item]; cbn [step];
    try (by exists l).
  - exists l. unfold unregister. by destruct (jsmap_get a (actionHandlers s)).
  - destruct (rebindAction_table a p sec s l Hl) as (l' & Hl' & Hacts').
    exists l'. split; [done | by etrans].
  - by exists defaultBindings.
  - destruct (loadBindings_table s l Hl) as (l' & Hl' & Hacts').
    exists l'. split; [done | by etrans].
  - exists l. by rewrite handleEvent_bindings.
Qed.

(** In every state that a constructed service reaches, the binding table
    holds one binding for each action of the default table, under that
    action and in the order of the default table. *)
Lemma run_table raises item rs :
  ∃ l, bindings (run raises rs (new_InputService item)) = table_of l
       ∧ action <$> l = action <$> defaultBindings.
Proof.
  assert (Hnew : ∃ l, bindings (new_InputService item) = table_of l
                      ∧ action <$> l = action <$> defaultBindings).
  { apply (loadBindings_table (resetBindings (fields item)) defaultBindings).
    apply resetBindings_table. }
  revert Hnew. generalize (new_InputService item). intros s.
  revert s. induction rs as [|r rs IH]; intros s (l & Hl & Hacts); simpl.
  - by exists l.
  - apply IH. by eapply step_table.
Qed.

Lemma run_bindings_NoDup raises item rs :
  NoDup (jsmap_keys (bindings (run raises rs (new_InputService item)))).
Proof.
  destruct (run_table raises item rs) as (l & -> & Hacts).
  rewrite jsmap_keys_table_of, Hacts. apply defaultBindings_NoDup.
Qed.

(** The round trip of C2 holds in every state that a constructed service
    reaches, not only after rebinds of the default table. *)
Lemma roundtrip_in_every_state raises item rs :
  let s := run raises rs (new_InputService item) in
  bindings (loadBindings (resetBindings (saveBindings s))) = bindings s.
Proof.
  intros s. destruct (run_table raises item rs) as (l & Hl & Hacts).
  by apply (roundtrip_of_shape s l).
Qed.

(** ** Dispatch when no handler raises *)

Section QuietDispatch.
Context (raises : InputActionHandler → InputState → option InputValue → bool).

Lemma forOf_invoke_quiet a st v handlers t :
  (∀ h, h ∈ handlers → raises h st v = false) →
  forOf handlers (fun h => invoke raises a h st v) t
  = (Normal tt,
     with_calls (fun l => l ++ ((fun h => Build_Call a h st v) <$> handlers)) t).
Proof.
  revert t. induction handlers as [|h handlers IH]; intros t Hq.
  - simpl. unfold ret, with_calls. destruct t; simpl. by rewrite app_nil_r.
  - simpl. unfold bind at 1. unfold invoke at 1.
    rewrite (Hq h) by (apply elem_of_cons; by left).
    rewrite IH by (intros; apply Hq, elem_of_cons; by right).
    unfold with_calls. simpl. by rewrite <- app_assoc.
Qed.

Lemma notifyActionHandlers_quiet a st s :
  quiet raises s →
  notifyActionHandlers raises a st s
  = (Normal tt, with_calls (fun l => l ++ notification a st s) s).
Proof.
  intros Hq. unfold notifyActionHandlers, notification, handlersOf.
  destruct (jsmap_get a (actionHandlers s)) as [handlers|] eqn:Hget.
  - apply forOf_invoke_quiet. intros h Hh. by eapply Hq.
  - unfold ret, with_calls. destruct s; simpl. by rewrite app_nil_r.
Qed.

(** The loop of [processInputChange], over the rest of the table. *)
Lemma processInputChange_loop_quiet key (pressed : bool) entries t :
  quiet raises t →
  forOf entries
    (fun '(actionType, binding) (s : InputService) =>
       if negb (bool_decide (context binding ∈ activeContexts s)) then ret tt s
       else if bindingMatches binding key then
         let newState := if pressed then PRESSED else RELEASED in
         (modify (with_actionStates (insert actionType newState)) ;;
          notifyActionHandlers raises actionType newState) s
       else ret tt s) t
  = (Normal tt,
     with_calls
       (fun l => l ++ flat_map (fun a => notification a (stateFor pressed) t)
                        (affectedIn key (activeContexts t) entries))
       (with_actionStates
          (fun m => foldl (fun m a => <[a := stateFor pressed]> m) m
                      (affectedIn key (activeContexts t) entries)) t)).
Proof.
  revert t. induction entries as [|[a b] entries IH]; intros t Hq.
  - simpl. unfold ret, with_calls, with_actionStates. destruct t; simpl.
    by rewrite app_nil_r.
  - simpl. unfold bind at 1.
    destruct (bool_decide (context b ∈ activeContexts t)); simpl;
      [destruct (bindingMatches b key); simpl|].
    + unfold bind at 1, modify at 1.
      rewrite notifyActionHandlers_quiet by exact Hq.
      rewrite IH by exact Hq.
      unfold with_calls, with_actionStates. simpl.
      by rewrite <- app_assoc.
    + unfold ret at 1. by rewrite IH.
    + unfold ret at 1. by rewrite IH.
Qed.

Lemma processInputChange_quiet key pressed s :
  quiet raises s →
  processInputChange raises key pressed s = (Normal tt, dispatched key pressed s).
Proof. intros Hq. by apply processInputChange_loop_quiet. Qed.
End QuietDispatch.

(** ** Which actions a transition reaches *)

Lemma elem_of_flat_map {A B} (f : A → list B) (l : list A) (y : B) :
  y ∈ flat_map f l ↔ ∃ x, x ∈ l ∧ y ∈ f x.
Proof.
  rewrite list_elem_of_In, in_flat_map. by setoid_rewrite list_elem_of_In.
Qed.

Lemma affectedIn_elem key enabled entries a :
  a ∈ affectedIn key enabled entries ↔
  ∃ b, (a, b) ∈ entries ∧ context b ∈ enabled ∧ bindingMatches b key = true.
Proof.
  induction entries as [|[a' b'] entries IH]; simpl.
  - split; [by intros ?%elem_of_nil | by intros (b & ?%elem_of_nil & _)].
  - destruct (bool_decide (context b' ∈ enabled)) eqn:Hlive; simpl;
      [destruct (bindingMatches b' key) eqn:Hmatch|].
    + rewrite elem_of_cons, IH. apply bool_decide_eq_true in Hlive. split.
      * intros [->|(b & Hb & ?)]; [exists b'; split; [left|done]|].
        exists b. split; [by right | done].
      * intros (b & [[= -> ->]|Hb]%elem_of_cons & ?); [by left|].
        right. by exists b.
    + rewrite IH. split.
      * intros (b & Hb & ?). exists b. split; [by right | done].
      * intros (b & [[= -> ->]|Hb]%elem_of_cons & ? & ?); [congruence|].
        by exists b.
    + rewrite IH. apply bool_decide_eq_false in Hlive. split.
      * intros (b & Hb & ?). exists b. split; [by right | done].
      * intros (b & [[= -> ->]|Hb]%elem_of_cons & ? & ?); [done|].
        by exists b.
Qed.

Lemma bindingMatches_true b key :
  bindingMatches b key = true ↔ primary b = key ∨ secondary b = Some key.
Proof.
  unfold bindingMatches.
  rewrite orb_true_iff, !bool_decide_eq_true. done.
Qed.

Lemma affected_getBinding key s a b :
  getBinding a s = Some b →
  primary b = key ∨ secondary b = Some key →
  context b ∈ activeContexts s →
  a ∈ affected key s.
Proof.
  intros Hget Hmatch Hlive. apply affectedIn_elem. exists b.
  split; [by apply jsmap_get_Some_elem|]. split; [done|].
  by apply bindingMatches_true.
Qed.

Lemma jsmap_get_NoDup_elem {K V} `{EqDecision K} (k : K) (v : V) (m : JsMap K V) :
  NoDup (jsmap_keys m) → (k, v) ∈ m → jsmap_get k m = Some v.
Proof.
  unfold jsmap_keys. induction m as [|[k' v'] m IH]; csimpl.
  - by intros _ ?%elem_of_nil.
  - rewrite NoDup_cons, elem_of_cons. intros [Hk' Hnd] [[= -> ->]|Hin].
    + by rewrite decide_True.
    + destruct (decide (k = k')) as [->|Hne]; [|by apply IH].
      destruct Hk'. apply list_elem_of_fmap. by exists (k', v).
Qed.

Lemma foldl_insert_lookup (st : InputState) (l : list InputActionType)
    (m : gmap InputActionType InputState) (a : InputActionType) :
  foldl (fun m a => <[a := st]> m) m l !! a
  = if bool_decide (a ∈ l) then Some st else m !! a.
Proof.
  revert m. induction l as [|x l IH]; intros m; simpl; [done|].
  rewrite IH. destruct (decide (a = x)) as [->|Hne].
  - rewrite (bool_decide_eq_true_2 (x ∈ x :: l)) by left.
    rewrite lookup_insert_eq. by destruct (bool_decide (x ∈ l)).
  - rewrite lookup_insert_ne by done.
    destruct (decide (a ∈ l)) as [Hin|Hnin].
    + rewrite !bool_decide_eq_true_2; [done | by right | done].
    + rewrite !bool_decide_eq_false_2; [done | | done].
      by intros [?|?]%elem_of_cons.
Qed.

Lemma newCalls_app s s' new :
  calls s' = calls s ++ new → newCalls s s' = new.
Proof. intros Heq. unfold newCalls. rewrite Heq. apply drop_app_length. Qed.

(** X22. What the code does guarantee of the fan-out. When no registered handler
    raises, a raw transition of a control completes normally and reaches
    every action whose binding names the control, as its primary or as its
    secondary control, on an enabled context: the state of each such action
    becomes the state of the transition and each of its handlers is invoked
    with that state. *)
Theorem processInputChange_reaches_every_match
    (raises : InputActionHandler → InputState → option InputValue → bool)
    (key : string) (pressed : bool) (s : InputService)
    (a : InputActionType) (b : IInputBinding) :
  quiet raises s →
  getBinding a s = Some b →
  primary b = key ∨ secondary b = Some key →
  context b ∈ activeContexts s →
  let r := processInputChange raises key pressed s in
  completed r = true
  ∧ actionStates (after r) !! a = Some (stateFor pressed)
  ∧ ∀ h, h ∈ handlersOf a s →
         Build_Call a h (stateFor pressed) (handlerValue a s)
         ∈ newCalls s (after r).
Proof.
  intros Hq Hget Hmatch Hlive r. unfold r.
  rewrite (processInputChange_quiet raises key pressed s Hq).
  assert (Ha : a ∈ affected key s) by by eapply affected_getBinding.
  split; [done|]. unfold after, dispatched. cbn [snd]. split.
  - cbn. rewrite foldl_insert_lookup. by rewrite bool_decide_eq_true_2.
  - intros h Hh. erewrite newCalls_app; [|reflexivity].
    apply elem_of_flat_map. exists a. split; [done|].
    unfold notification. apply list_elem_of_fmap. by exists h.
Qed.

Lemma quiet_neverRaises s : quiet neverRaises s.
Proof. by intros a handlers handler st v _ _. Qed.

Lemma processInputChange_reaches_every_match_witness :
  let r := processInputChange neverRaises "mouse1" true mouse1Service in
  completed r = true
  ∧ actionStates (after r) !! AIM = Some PRESSED
  ∧ ∀ h, h ∈ handlersOf AIM mouse1Service →
         Build_Call AIM h PRESSED (handlerValue AIM mouse1Service)
         ∈ newCalls mouse1Service (after r).
Proof.
  apply (processInputChange_reaches_every_match neverRaises "mouse1" true
           mouse1Service AIM (mkBinding AIM "mouse1" None PLAYER "Aim" true)).
  - apply quiet_neverRaises.
  - vm_compute; reflexivity.
  - left; reflexivity.
  - apply (bool_decide_unpack _). vm_compute; reflexivity.
Defined.

(** With the player context enabled and handlers that return, one press of
    [mouse1] notifies attack-secondary, aim and grapple. *)
Example mouse1_press_notifies_three_actions :
  let r := handleEvent neverRaises (MouseDown 1) mouse1Service in
  completed r = true
  ∧ calls (after r)
    = [ Build_Call ATTACK_SECONDARY 1 PRESSED None;
        Build_Call AIM 2 PRESSED None;
        Build_Call GRAPPLE 3 PRESSED None ]
  ∧ isActionInState ATTACK_SECONDARY PRESSED (after r) = true
  ∧ isActionInState AIM PRESSED (after r) = true
  ∧ isActionInState GRAPPLE PRESSED (after r) = true.
Proof. by vm_compute. Qed.

(** ** Actions that a transition does not reach *)

Section Untouched.
Context (raises : InputActionHandler → InputState → option InputValue → bool).

Lemma with_calls_nil t : with_calls (fun l => l ++ []) t = t.
Proof. unfold with_calls. destruct t; simpl. by rewrite app_nil_r. Qed.

Lemma forOf_invoke_calls a st v handlers t :
  ∃ new,
    (forOf handlers (fun h => invoke raises a h st v) t).2
    = with_calls (fun l => l ++ new) t
    ∧ Forall (fun c => call_action c = a) new.
Proof.
  revert t. induction handlers as [|h handlers IH]; intros t; simpl.
  - exists []. by rewrite with_calls_nil.
  - unfold bind at 1, invoke at 1. destruct (raises h st v); simpl.
    + exists [Build_Call a h st v]. split; [done|]. by apply Forall_singleton.
    + destruct (IH (with_calls (fun l => l ++ [Build_Call a h st v]) t))
        as (new & -> & Hnew).
      exists (Build_Call a h st v :: new). split.
      * unfold with_calls. simpl. by rewrite <- app_assoc.
      * by apply Forall_cons.
Qed.

Lemma notifyActionHandlers_calls a st s :
  ∃ new,
    (notifyActionHandlers raises a st s).2 = with_calls (fun l => l ++ new) s
    ∧ Forall (fun c => call_action c = a) new.
Proof.
  unfold notifyActionHandlers.
  destruct (jsmap_get a (actionHandlers s)) as [handlers|].
  - apply forOf_invoke_calls.
  - exists []. by rewrite with_calls_nil.
Qed.

Lemma processInputChange_loop_untouched key (pressed : bool) a entries t :
  a ∉ affectedIn key (activeContexts t) entries →
  ∃ new m,
    (forOf entries
       (fun '(actionType, binding) (s : InputService) =>
          if negb (bool_decide (context binding ∈ activeContexts s)) then ret tt s
          else if bindingMatches binding key then
            let newState := if pressed then PRESSED else RELEASED in
            (modify (with_actionStates (insert actionType newState)) ;;
             notifyActionHandlers raises actionType newState) s
          else ret tt s) t).2
    = with_calls (fun l => l ++ new) (with_actionStates (fun _ => m) t)
    ∧ m !! a = actionStates t !! a
    ∧ Forall (fun c => call_action c ≠ a) new.
Proof.
  revert t. induction entries as [|[a' b'] entries IH]; intros t Ha.
  - exists [], (actionStates t). simpl. rewrite with_calls_nil.
    split; [by destruct t | done].
  - simpl in Ha |- *. unfold bind at 1.
    destruct (bool_decide (context b' ∈ activeContexts t)); simpl in *;
      [destruct (bindingMatches b' key); simpl in *|].
    + apply not_elem_of_cons in Ha as [Hne Ha].
      unfold bind at 1, modify at 1.
      set (st := if pressed then PRESSED else RELEASED).
      set (t1 := with_actionStates (insert a' st) t).
      destruct (notifyActionHandlers_calls a' st t1) as (new1 & Hnew1 & Hall1).
      assert (Hall1' : Forall (fun c => call_action c ≠ a) new1).
      { eapply Forall_impl; [exact Hall1|]. simpl. congruence. }
      destruct (notifyActionHandlers raises a' st t1) as [[[]|h] t2];
        simpl in Hnew1; subst t2.
      * destruct (IH (with_calls (fun l => l ++ new1) t1) Ha)
          as (new2 & m2 & Heq & Hm2 & Hall2).
        exists (new1 ++ new2), m2. split; [|split].
        -- etrans; [exact Heq|].
           unfold with_calls, with_actionStates. simpl.
           by rewrite <- app_assoc.
        -- rewrite Hm2. simpl. by apply lookup_insert_ne.
        -- by apply Forall_app.
      * exists new1, (<[a' := st]> (actionStates t)). simpl.
        split; [done|]. split; [by apply lookup_insert_ne | done].
    + unfold ret at 1. by apply IH.
    + unfold ret at 1. by apply IH.
Qed.

(** An action that the transition does not affect keeps its state, and no
    handler is invoked for it, whether or not the dispatch is cut short. *)
Lemma processInputChange_untouched key pressed s a :
  a ∉ affected key s →
  let s' := after (processInputChange raises key pressed s) in
  actionStates s' !! a = actionStates s !! a
  ∧ ∀ c, c ∈ newCalls s s' → call_action c ≠ a.
Proof.
  intros Ha s'.
  destruct (processInputChange_loop_untouched key pressed a (bindings s) s Ha)
    as (new & m & Heq & Hm & Hall).
  assert (Hs' : s' = with_calls (fun l => l ++ new)
                       (with_actionStates (fun _ => m) s)) by exact Heq.
  rewrite Hs'. split; [done|]. intros c.
  erewrite newCalls_app; [|reflexivity].
  rewrite Forall_forall in Hall. apply Hall.
Qed.

(** What the listener of a press does to the action states and to the call
    log is what [processInputChange] does, unless the press is taken for a
    repetition. *)
Lemma handle_press_cases e key s :
  pressToken e = Some key →
  let s' := after (handleEvent raises e s) in
  s' = s
  ∨ (let p := after (processInputChange raises key true
                       (with_keyStates (jsmap_set key true) s)) in
     actionStates s' = actionStates p ∧ calls s' = calls p).
Proof.
  intros He. destruct e as [k|k|n|n| |]; simplify_eq/=.
  - unfold handleKeyDown. destruct (keyPressed _ s); [by left|]. right.
    unfold after, bind, modify.
    by destruct (processInputChange _ _ _ _) as [[[]|h] t].
  - right. unfold handleMouseDown, after, bind, modify.
    by destruct (processInputChange _ _ _ _) as [[[]|h] t].
Qed.
End Untouched.

(** ** The listeners when no handler raises *)

Section QuietListeners.
Context (raises : InputActionHandler → InputState → option InputValue → bool).

Lemma handleKeyDown_quiet k s :
  quiet raises s →
  keyPressed (toLowerCase k) s = false →
  handleKeyDown raises k s
  = (Normal tt,
     updateAxisValues
       (dispatched (toLowerCase k) true
          (with_keyStates (jsmap_set (toLowerCase k) true) s))).
Proof.
  intros Hq Hfresh. unfold handleKeyDown. rewrite Hfresh.
  unfold bind at 1, modify at 1. unfold bind at 1.
  by rewrite processInputChange_quiet by exact Hq.
Qed.

Lemma handleKeyDown_repeat k s :
  keyPressed (toLowerCase k) s = true →
  handleKeyDown raises k s = (Normal tt, s).
Proof. intros Hrep. unfold handleKeyDown. by rewrite Hrep. Qed.

Lemma handleKeyUp_quiet k s :
  quiet raises s →
  handleKeyUp raises k s
  = (Normal tt,
     updateAxisValues
       (dispatched (toLowerCase k) false
          (with_keyStates (jsmap_set (toLowerCase k) false) s))).
Proof.
  intros Hq. unfold handleKeyUp.
  unfold bind at 1, modify at 1. unfold bind at 1.
  by rewrite processInputChange_quiet by exact Hq.
Qed.

Lemma handleMouseDown_quiet n s :
  quiet raises s →
  handleMouseDown raises n s
  = (Normal tt,
     dispatched (mouseToken n) true
       (with_keyStates (jsmap_set (mouseToken n) true) s)).
Proof.
  intros Hq. unfold handleMouseDown. unfold bind at 1, modify at 1.
  by rewrite processInputChange_quiet by exact Hq.
Qed.

Lemma handleMouseUp_quiet n s :
  quiet raises s →
  handleMouseUp raises n s
  = (Normal tt,
     dispatched (mouseToken n) false
       (with_keyStates (jsmap_set (mouseToken n) false) s)).
Proof.
  intros Hq. unfold handleMouseUp. unfold bind at 1, modify at 1.
  by rewrite processInputChange_quiet by exact Hq.
Qed.

Lemma handle_press_quiet e key s :
  quiet raises s →
  pressToken e = Some key →
  (isKeyboardEvent e = true → keyPressed key s = false) →
  let r := handleEvent raises e s in
  completed r = true
  ∧ actionStates (after r)
    = foldl (fun m a => <[a := PRESSED]> m) (actionStates s) (affected key s)
  ∧ calls (after r)
    = calls s ++ flat_map (fun a => notification a PRESSED s) (affected key s).
Proof.
  intros Hq He Hfresh r. unfold r.
  destruct e as [k|k|n|n| |]; simplify_eq/=.
  - by rewrite handleKeyDown_quiet by auto.
  - by rewrite handleMouseDown_quiet.
Qed.
End QuietListeners.

(** ** The context gate in front of an action *)

(** C3, as the code has it. Take a control that the binding of move-forward
    names. While the context of that binding is not enabled, a press of the
    control leaves the state of move-forward as it was and invokes no handler
    for move-forward. Once the context is enabled, a press of the control
    that the tracker does not hold as pressed already (a key-down of a key
    it holds as pressed is taken for a repetition and ignored), when no
    registered handler raises, sets move-forward to pressed and invokes
    every handler of move-forward with that state. *)
Theorem move_forward_context_gate
    (raises : InputActionHandler → InputState → option InputValue → bool)
    (s : InputService) (e : DomEvent) (key : string) (b : IInputBinding) :
  NoDup (jsmap_keys (bindings s)) →
  getBinding MOVE_FORWARD s = Some b →
  primary b = key ∨ secondary b = Some key →
  pressToken e = Some key →
  (context b ∉ activeContexts s →
   let s' := after (handleEvent raises e s) in
   actionStates s' !! MOVE_FORWARD = actionStates s !! MOVE_FORWARD
   ∧ ∀ c, c ∈ newCalls s s' → call_action c ≠ MOVE_FORWARD)
  ∧ (quiet raises s →
     (isKeyboardEvent e = true → keyPressed key s = false) →
     let s1 := enableContext (context b) s in
     let r := handleEvent raises e s1 in
     completed r = true
     ∧ isActionInState MOVE_FORWARD PRESSED (after r) = true
     ∧ ∀ h, h ∈ handlersOf MOVE_FORWARD s →
            Build_Call MOVE_FORWARD h PRESSED
              (Some (Num (getAxisValue MOVE_FORWARD s)))
            ∈ newCalls s1 (after r)).
Proof.
  intros Hnd Hget Hmatch He. split.
  - intros Hoff s'.
    assert (Hun : MOVE_FORWARD ∉ affected key s).
    { intros (b' & Hin & Hlive & _)%affectedIn_elem.
      apply (jsmap_get_NoDup_elem _ _ _ Hnd) in Hin.
      unfold getBinding in Hget. congruence. }
    destruct (handle_press_cases raises e key s He) as [Hsame|[Hst Hcalls]];
      fold s' in Hsame || fold s' in Hst, Hcalls.
    + rewrite Hsame. split; [done|]. unfold newCalls.
      rewrite drop_all. by intros c ?%elem_of_nil.
    + destruct (processInputChange_untouched raises key true
                  (with_keyStates (jsmap_set key true) s) MOVE_FORWARD Hun)
        as [Hst' Hcalls'].
      split; [by rewrite Hst|]. intros c Hc. apply Hcalls'.
      unfold newCalls in *. by rewrite <- Hcalls.
  - intros Hq Hfresh s1 r.
    destruct (handle_press_quiet raises e key s1 Hq He Hfresh)
      as (Hdone & Hst & Hcalls). fold r in Hdone, Hst, Hcalls.
    assert (Hin : MOVE_FORWARD ∈ affected key s1).
    { apply (affected_getBinding key s1 MOVE_FORWARD b Hget Hmatch).
      unfold s1, enableContext. simpl.
      apply elem_of_union. right. by apply elem_of_singleton. }
    split; [done|]. split.
    + unfold isActionInState. apply bool_decide_eq_true_2.
      rewrite Hst, foldl_insert_lookup. by rewrite bool_decide_eq_true_2.
    + intros h Hh. rewrite (newCalls_app _ _ _ Hcalls).
      apply elem_of_flat_map. exists MOVE_FORWARD. split; [done|].
      unfold notification. apply list_elem_of_fmap. by exists h.
Qed.

Lemma move_forward_context_gate_witness :
  let s := disableContext PLAYER movementService in
  (let s' := after (handleEvent neverRaises (KeyDown "W") s) in
   actionStates s' !! MOVE_FORWARD = actionStates s !! MOVE_FORWARD
   ∧ ∀ c, c ∈ newCalls s s' → call_action c ≠ MOVE_FORWARD)
  ∧ (let s1 := enableContext PLAYER s in
     let r := handleEvent neverRaises (KeyDown "W") s1 in
     completed r = true
     ∧ isActionInState MOVE_FORWARD PRESSED (after r) = true
     ∧ ∀ h, h ∈ handlersOf MOVE_FORWARD s →
            Build_Call MOVE_FORWARD h PRESSED
              (Some (Num (getAxisValue MOVE_FORWARD s)))
            ∈ newCalls s1 (after r)).
Proof.
  destruct (move_forward_context_gate neverRaises
              (disableContext PLAYER movementService) (KeyDown "W") "w"
              (mkBinding MOVE_FORWARD "w" (Some "arrowup") PLAYER
                 "Move Forward" true)) as [Hoff Hon].
  - apply (bool_decide_unpack _). vm_compute; reflexivity.
  - vm_compute; reflexivity.
  - left; reflexivity.
  - reflexivity.
  - split; [apply Hoff | apply Hon].
    + apply (bool_decide_unpack _). vm_compute; reflexivity.
    + apply quiet_neverRaises.
    + intros _. vm_compute; reflexivity.
Defined.

(** The gate, evaluated with a release between the two presses: the handler
    of move-forward is not called while the player context is disabled, and
    is called after it is enabled again. *)
Example move_forward_gate_scenario :
  let s := disableContext PLAYER movementService in
  let s1 := after (handleEvent neverRaises (KeyDown "w") s) in
  let s2 := after (handleEvent neverRaises (KeyUp "w") s1) in
  let s3 := after (handleEvent neverRaises (KeyDown "w") (enableContext PLAYER s2)) in
  calls s1 = [] ∧ actionStates s1 !! MOVE_FORWARD = None
  ∧ calls s3 = [Build_Call MOVE_FORWARD 1 PRESSED (Some (Num 0%Z))]
  ∧ actionStates s3 !! MOVE_FORWARD = Some PRESSED.
Proof. by vm_compute. Qed.

(** ** The movement axes *)

Lemma updateAxisValues_current s : axesCurrent (updateAxisValues s).
Proof.
  unfold axesCurrent, axisFor, getAxisValue, updateAxisValues. cbn.
  rewrite jsmap_get_set_ne by done. rewrite !jsmap_get_set_eq. cbn.
  change (isKeyForActionPressed MOVE_RIGHT (with_axisValues _ (with_axisValues _ s)))
    with (isKeyForActionPressed MOVE_RIGHT s).
  change (isKeyForActionPressed MOVE_LEFT (with_axisValues _ (with_axisValues _ s)))
    with (isKeyForActionPressed MOVE_LEFT s).
  change (isKeyForActionPressed MOVE_FORWARD (with_axisValues _ (with_axisValues _ s)))
    with (isKeyForActionPressed MOVE_FORWARD s).
  change (isKeyForActionPressed MOVE_BACKWARD (with_axisValues _ (with_axisValues _ s)))
    with (isKeyForActionPressed MOVE_BACKWARD s).
  change (isKeyForActionPressed MOVE_FORWARD (with_axisValues _ s))
    with (isKeyForActionPressed MOVE_FORWARD s).
  change (isKeyForActionPressed MOVE_BACKWARD (with_axisValues _ s))
    with (isKeyForActionPressed MOVE_BACKWARD s).
  by destruct (isKeyForActionPressed MOVE_RIGHT s),
       (isKeyForActionPressed MOVE_LEFT s),
       (isKeyForActionPressed MOVE_FORWARD s),
       (isKeyForActionPressed MOVE_BACKWARD s).
Qed.

Lemma axesCurrent_new item : axesCurrent (new_InputService item).
Proof.
  unfold axesCurrent, axisFor, isKeyForActionPressed, keyPressed, getAxisValue.
  assert (Hks : keyStates (new_InputService item) = []).
  { unfold new_InputService, enableContext, loadBindings. by destruct item. }
  assert (Hax : axisValues (new_InputService item) = []).
  { unfold new_InputService, enableContext, loadBindings. by destruct item. }
  rewrite Hks, Hax. simpl.
  split.
  - destruct (jsmap_get MOVE_RIGHT _) as [b1|], (jsmap_get MOVE_LEFT _) as [b2|];
      try destruct (secondary b1) as [x1|]; try destruct (secondary b2) as [x2|];
      try destruct (truthy x1); try destruct (truthy x2); done.
  - destruct (jsmap_get MOVE_FORWARD _) as [b1|], (jsmap_get MOVE_BACKWARD _) as [b2|];
      try destruct (secondary b1) as [x1|]; try destruct (secondary b2) as [x2|];
      try destruct (truthy x1); try destruct (truthy x2); done.
Qed.

Lemma key_event_axesCurrent raises e s :
  quiet raises s →
  isKeyboardEvent e = true →
  axesCurrent s →
  let s' := after (handleEvent raises e s) in
  axesCurrent s' ∧ quiet raises s'.
Proof.
  intros Hq He Hcur. destruct e as [k|k|n|n| |]; simplify_eq/=.
  - destruct (keyPressed (toLowerCase k) s) eqn:Hrep.
    + by rewrite handleKeyDown_repeat.
    + rewrite handleKeyDown_quiet by done.
      split; [apply updateAxisValues_current | exact Hq].
  - rewrite handleKeyUp_quiet by done.
    split; [apply updateAxisValues_current | exact Hq].
Qed.

(** X23. What the code does guarantee of the movement axes. Start from a service
    whose stored axis values are current (a fresh service is such) and
    whose handlers do not raise, and let any sequence of key-down and
    key-up events arrive. After the sequence, the value of
    the axis of a movement pair (stored under the positive action) is -1, 0
    or 1; it is 1 exactly when a control of the positive action is held as
    pressed and none of the negative action, -1 exactly in the opposite
    case, and 0 exactly when both or neither are pressed. *)
Theorem movement_axis_follows_keys
    (raises : InputActionHandler → InputState → option InputValue → bool)
    (s0 : InputService) (events : list DomEvent) :
  quiet raises s0 →
  axesCurrent s0 →
  Forall (fun e => isKeyboardEvent e = true) events →
  let s := run raises (Dom <$> events) s0 in
  ∀ positiveAction negativeAction,
    (positiveAction, negativeAction) = (MOVE_RIGHT, MOVE_LEFT)
    ∨ (positiveAction, negativeAction) = (MOVE_FORWARD, MOVE_BACKWARD) →
    let v := getAxisValue positiveAction s in
    let pos := isKeyForActionPressed positiveAction s in
    let neg := isKeyForActionPressed negativeAction s in
    (v = (-1)%Z ∨ v = 0%Z ∨ v = 1%Z)
    ∧ (v = 1%Z ↔ pos = true ∧ neg = false)
    ∧ (v = (-1)%Z ↔ pos = false ∧ neg = true)
    ∧ (v = 0%Z ↔ pos = neg).
Proof.
  intros Hq Hcur Hev s.
  assert (Hs : axesCurrent s ∧ quiet raises s).
  { unfold s. clear s. revert s0 Hq Hcur.
    induction Hev as [|e events He Hev IH]; intros s0 Hq Hcur; [done|].
    csimpl. destruct (key_event_axesCurrent raises e s0 Hq He Hcur).
    by apply IH. }
  destruct Hs as [[Hh Hv] _].
  intros p n [[= -> ->]|[= -> ->]] v pos neg; unfold v, pos, neg.
  - rewrite Hh. unfold axisFor.
    destruct (isKeyForActionPressed MOVE_RIGHT s),
      (isKeyForActionPressed MOVE_LEFT s); simpl; intuition (done || lia).
  - rewrite Hv. unfold axisFor.
    destruct (isKeyForActionPressed MOVE_FORWARD s),
      (isKeyForActionPressed MOVE_BACKWARD s); simpl; intuition (done || lia).
Qed.

Lemma movement_axis_follows_keys_witness :
  let s := run neverRaises (Dom <$> [KeyDown "d"; KeyDown "a"; KeyUp "d"])
             movementService in
  let v := getAxisValue MOVE_RIGHT s in
  let pos := isKeyForActionPressed MOVE_RIGHT s in
  let neg := isKeyForActionPressed MOVE_LEFT s in
  (v = (-1)%Z ∨ v = 0%Z ∨ v = 1%Z)
  ∧ (v = 1%Z ↔ pos = true ∧ neg = false)
  ∧ (v = (-1)%Z ↔ pos = false ∧ neg = true)
  ∧ (v = 0%Z ↔ pos = neg).
Proof.
  apply (movement_axis_follows_keys neverRaises movementService
           [KeyDown "d"; KeyDown "a"; KeyUp "d"]).
  - apply quiet_neverRaises.
  - split; vm_compute; reflexivity.
  - repeat constructor.
  - left; reflexivity.
Defined.

(** With handlers that return: right pressed, then left pressed, then right
    released, then left released. After each event the axis is 0 whenever
    both keys or neither key is down. *)
Example opposite_keys_cancel :
  let s1 := after (handleEvent neverRaises (KeyDown "d") movementService) in
  let s2 := after (handleEvent neverRaises (KeyDown "a") s1) in
  let s3 := after (handleEvent neverRaises (KeyUp "d") s2) in
  let s4 := after (handleEvent neverRaises (KeyUp "a") s3) in
  getAxisValue MOVE_RIGHT <$> [s1; s2; s3; s4] = [1; 0; -1; 0]%Z.
Proof. by vm_compute. Qed.

(** ** A handler that raises *)

Section Raise.
Context (raises : InputActionHandler → InputState → option InputValue → bool).

(** The loop over a handler set ends at the first handler that raises:
    the handlers after it are not invoked and the exception leaves the
    loop. *)
Lemma forOf_invoke_raise a st v before h rest t :
  (∀ x, x ∈ before → raises x st v = false) →
  raises h st v = true →
  forOf (before ++ h :: rest) (fun h => invoke raises a h st v) t
  = (Thrown h,
     with_calls
       (fun l => l ++ ((fun h => Build_Call a h st v) <$> (before ++ [h]))) t).
Proof.
  revert t. induction before as [|x before IH]; intros t Hq Hh.
  - simpl. unfold bind at 1, invoke at 1. by rewrite Hh.
  - simpl. unfold bind at 1, invoke at 1.
    rewrite (Hq x) by (apply elem_of_cons; by left).
    rewrite IH by (try done; intros; apply Hq, elem_of_cons; by right).
    unfold with_calls. simpl. by rewrite <- app_assoc.
Qed.

Lemma notifyActionHandlers_raise a st s before h rest :
  jsmap_get a (actionHandlers s) = Some (before ++ h :: rest) →
  (∀ x, x ∈ before → raises x st (handlerValue a s) = false) →
  raises h st (handlerValue a s) = true →
  notifyActionHandlers raises a st s
  = (Thrown h,
     with_calls
       (fun l => l ++ ((fun h => Build_Call a h st (handlerValue a s))
                         <$> (before ++ [h]))) s).
Proof.
  intros Hget Hq Hh. unfold notifyActionHandlers. rewrite Hget.
  by apply forOf_invoke_raise.
Qed.
End Raise.

(** C1, on the code. Two handlers are registered for jump and one for
    release-grapple, both bound to the space key; the first handler of jump
    raises. On a press of the space key the exception leaves the listener,
    the second handler of jump is never invoked, and release-grapple is
    neither updated nor notified. When no handler raises, all three are
    invoked and both actions are updated. *)
Theorem raising_handler_cuts_dispatch_short :
  handlersOf JUMP spaceService = [0; 1]%nat
  ∧ handlersOf RELEASE_GRAPPLE spaceService = [2]%nat
  ∧ (let r := handleEvent (onlyRaises 0) (KeyDown " ") spaceService in
     r.1 = Thrown 0%nat
     ∧ calls (after r) = [Build_Call JUMP 0 PRESSED None]
     ∧ actionStates (after r) !! JUMP = Some PRESSED
     ∧ actionStates (after r) !! RELEASE_GRAPPLE = None)
  ∧ (let r := handleEvent neverRaises (KeyDown " ") spaceService in
     r.1 = Normal tt
     ∧ calls (after r)
       = [ Build_Call JUMP 0 PRESSED None; Build_Call JUMP 1 PRESSED None;
           Build_Call RELEASE_GRAPPLE 2 PRESSED None ]
     ∧ actionStates (after r) !! JUMP = Some PRESSED
     ∧ actionStates (after r) !! RELEASE_GRAPPLE = Some PRESSED).
Proof. by vm_compute. Qed.

(** ** Loss of focus *)

Section Blur.
Context (raises : InputActionHandler → InputState → option InputValue → bool).

Lemma forOf_modify {X} (f : X → InputService → InputService) xs t :
  forOf xs (fun x => modify (f x)) t = (Normal tt, foldl (fun t x => f x t) t xs).
Proof.
  revert t. induction xs as [|x xs IH]; intros t; simpl; [done|].
  unfold bind at 1, modify at 1. apply IH.
Qed.

Lemma blur_loop_quiet entries t :
  quiet raises t →
  forOf entries
    (fun '(key, pressed) =>
       if pressed : bool then
         modify (with_keyStates (jsmap_set key false)) ;;
         processInputChange raises key false
       else ret tt) t
  = (Normal tt, releaseAll entries t).
Proof.
  revert t. induction entries as [|[key pressed] entries IH]; intros t Hq;
    simpl; [done|].
  unfold bind at 1. destruct pressed.
  - unfold bind at 1, modify at 1.
    rewrite processInputChange_quiet by exact Hq. by apply IH.
  - unfold ret at 1. by apply IH.
Qed.

Lemma handleWindowBlur_quiet s :
  quiet raises s →
  handleWindowBlur raises s
  = (Normal tt, zeroAxes (releaseAll (keyStates s) s)).
Proof.
  intros Hq. unfold handleWindowBlur. unfold bind at 1.
  rewrite blur_loop_quiet by done.
  by rewrite (forOf_modify (fun a => with_axisValues (jsmap_set a 0%Z))).
Qed.
End Blur.

Lemma releaseAll_cons key pressed entries t :
  releaseAll ((key, pressed) :: entries) t
  = releaseAll entries
      (if pressed : bool
       then dispatched key false (with_keyStates (jsmap_set key false) t)
       else t).
Proof. reflexivity. Qed.

Lemma releaseAll_spec entries t :
  releaseAll entries t
  = with_calls
      (fun l => l ++ flat_map (fun a => notification a RELEASED t) (released entries t))
      (with_actionStates
         (fun m => foldl (fun m a => <[a := RELEASED]> m) m (released entries t))
         (with_keyStates
            (fun m => foldl (fun m '(key, pressed) =>
                               if pressed : bool then jsmap_set key false m else m)
                        m entries) t)).
Proof.
  revert t. induction entries as [|[key pressed] entries IH]; intros t.
  - simpl. unfold with_calls, with_actionStates, with_keyStates.
    destruct t; simpl. by rewrite app_nil_r.
  - rewrite releaseAll_cons. destruct pressed.
    + rewrite IH. unfold released. simpl.
      unfold dispatched, with_calls, with_actionStates, with_keyStates. simpl.
      rewrite flat_map_app, foldl_app, <- app_assoc. done.
    + by rewrite IH.
Qed.

Lemma release_fold_get (k : string) (entries : list (string * bool))
    (m : JsMap string bool) :
  jsmap_get k
    (foldl (fun m '(key, pressed) =>
              if pressed : bool then jsmap_set key false m else m) m entries)
  = if bool_decide ((k, true) ∈ entries) then Some false else jsmap_get k m.
Proof.
  revert m. induction entries as [|[k' p] entries IH]; intros m; simpl; [done|].
  rewrite IH. destruct (decide ((k, true) ∈ entries)) as [Hin|Hnin].
  - rewrite !bool_decide_eq_true_2; [done | by right | done].
  - rewrite (bool_decide_eq_false_2 _ Hnin). destruct p.
    + destruct (decide (k = k')) as [->|Hne].
      * rewrite jsmap_get_set_eq. by rewrite bool_decide_eq_true_2 by left.
      * rewrite jsmap_get_set_ne by done.
        rewrite bool_decide_eq_false_2; [done|].
        intros [[= ->]|?]%elem_of_cons; done.
    + rewrite bool_decide_eq_false_2; [done|].
      intros [[=]|?]%elem_of_cons; done.
Qed.

Lemma zero_fold_get (a : InputActionType) (ks : list InputActionType)
    (m : JsMap InputActionType Z) :
  jsmap_get a (foldl (fun m a => jsmap_set a 0%Z m) m ks)
  = if bool_decide (a ∈ ks) then Some 0%Z else jsmap_get a m.
Proof.
  revert m. induction ks as [|k ks IH]; intros m; simpl; [done|].
  rewrite IH. destruct (decide (a ∈ ks)) as [Hin|Hnin].
  - rewrite !bool_decide_eq_true_2; [done | by right | done].
  - rewrite (bool_decide_eq_false_2 _ Hnin).
    destruct (decide (a = k)) as [->|Hne].
    + rewrite jsmap_get_set_eq. by rewrite bool_decide_eq_true_2 by left.
    + rewrite jsmap_get_set_ne by done.
      rewrite bool_decide_eq_false_2; [done|].
      by intros [?|?]%elem_of_cons.
Qed.

Lemma zero_fold_keys (ks : list InputActionType) (m : JsMap InputActionType Z) :
  (∀ a, a ∈ ks → a ∈ jsmap_keys m) →
  jsmap_keys (foldl (fun m a => jsmap_set a 0%Z m) m ks) = jsmap_keys m.
Proof.
  revert m. induction ks as [|k ks IH]; intros m Hks; simpl; [done|].
  assert (Hk : k ∈ jsmap_keys m) by (apply Hks; left).
  destruct (jsmap_get k m) as [v|] eqn:Hget;
    [|by apply jsmap_get_None_keys in Hget].
  rewrite IH.
  - by eapply jsmap_keys_set.
  - intros a Ha. apply jsmap_keys_set_mono, Hks. by right.
Qed.

Lemma zeroAxes_spec t :
  zeroAxes t
  = with_axisValues
      (fun m => foldl (fun m a => jsmap_set a 0%Z m) m (jsmap_keys (axisValues t)))
      t.
Proof.
  unfold zeroAxes. generalize (jsmap_keys (axisValues t)). intros ks.
  revert t. induction ks as [|k ks IH]; intros t; simpl.
  - by destruct t.
  - by rewrite IH.
Qed.

(** X24. What the code does guarantee of a loss of focus. When no registered
    handler raises, the focus-loss listener completes normally; after it no
    control is held as pressed; every action
    whose binding names a control that was held as pressed, on an enabled
    context, has the state released and each of its handlers was invoked
    with that state; and the value of every axis is 0, under the same keys
    as before. *)
Theorem handleWindowBlur_releases_everything
    (raises : InputActionHandler → InputState → option InputValue → bool)
    (s : InputService) :
  quiet raises s →
  let r := handleWindowBlur raises s in
  completed r = true
  ∧ (∀ key, keyPressed key (after r) = false)
  ∧ (∀ key a b,
       keyPressed key s = true →
       getBinding a s = Some b →
       primary b = key ∨ secondary b = Some key →
       context b ∈ activeContexts s →
       actionStates (after r) !! a = Some RELEASED
       ∧ ∀ h, h ∈ handlersOf a s →
              Build_Call a h RELEASED (handlerValue a s) ∈ newCalls s (after r))
  ∧ (∀ a, getAxisValue a (after r) = 0%Z)
  ∧ jsmap_keys (axisValues (after r)) = jsmap_keys (axisValues s).
Proof.
  intros Hq r. unfold r. rewrite (handleWindowBlur_quiet raises s Hq).
  rewrite zeroAxes_spec, releaseAll_spec. unfold after. cbn [fst snd].
  split; [done|]. split; [|split; [|split]].
  - intros key. unfold keyPressed. cbn. rewrite release_fold_get.
    destruct (decide ((key, true) ∈ keyStates s)) as [Hin|Hnin].
    + by rewrite bool_decide_eq_true_2.
    + rewrite bool_decide_eq_false_2 by done.
      destruct (jsmap_get key (keyStates s)) as [[]|] eqn:Hget; try done.
      by apply jsmap_get_Some_elem in Hget.
  - intros key a b Hkey Hget Hmatch Hlive.
    assert (Ha : a ∈ released (keyStates s) s).
    { unfold released. apply elem_of_flat_map. exists (key, true). split.
      - unfold keyPressed in Hkey.
        destruct (jsmap_get key (keyStates s)) as [[]|] eqn:Hk; try done.
        by apply jsmap_get_Some_elem.
      - simpl. by eapply affected_getBinding. }
    split.
    + cbn. rewrite foldl_insert_lookup. by rewrite bool_decide_eq_true_2.
    + intros h Hh. erewrite newCalls_app; [|reflexivity].
      apply elem_of_flat_map. exists a. split; [done|].
      unfold notification. apply list_elem_of_fmap. by exists h.
  - intros a. unfold getAxisValue. cbn. rewrite zero_fold_get.
    destruct (decide (a ∈ jsmap_keys (axisValues s))) as [Hin|Hnin].
    + by rewrite bool_decide_eq_true_2.
    + rewrite bool_decide_eq_false_2 by done.
      apply jsmap_get_None_keys in Hnin. by rewrite Hnin.
  - cbn. by apply zero_fold_keys.
Qed.

Lemma handleWindowBlur_releases_everything_witness :
  let r := handleWindowBlur neverRaises heldService in
  completed r = true
  ∧ (∀ key, keyPressed key (after r) = false)
  ∧ (∀ key a b,
       keyPressed key heldService = true →
       getBinding a heldService = Some b →
       primary b = key ∨ secondary b = Some key →
       context b ∈ activeContexts heldService →
       actionStates (after r) !! a = Some RELEASED
       ∧ ∀ h, h ∈ handlersOf a heldService →
              Build_Call a h RELEASED (handlerValue a heldService)
              ∈ newCalls heldService (after r))
  ∧ (∀ a, getAxisValue a (after r) = 0%Z)
  ∧ jsmap_keys (axisValues (after r)) = jsmap_keys (axisValues heldService).
Proof.
  exact (handleWindowBlur_releases_everything neverRaises heldService
           (quiet_neverRaises heldService)).
Defined.

(** With handlers that return: three controls are down when the window
    loses focus. *)
Example blur_with_three_controls_down :
  let s' := after (handleWindowBlur neverRaises heldService) in
  keyStates heldService = [("w", true); ("d", true); ("mouse1", true)]
  ∧ axisValues heldService = [(MOVE_RIGHT, 1%Z); (MOVE_FORWARD, 1%Z)]
  ∧ keyStates s' = [("w", false); ("d", false); ("mouse1", false)]
  ∧ axisValues s' = [(MOVE_RIGHT, 0%Z); (MOVE_FORWARD, 0%Z)]
  ∧ (fun a => actionStates s' !! a)
      <$> [MOVE_FORWARD; MOVE_RIGHT; ATTACK_SECONDARY; AIM; GRAPPLE]
    = [Some RELEASED; Some RELEASED; Some RELEASED; Some RELEASED; Some RELEASED]
  ∧ newCalls heldService s'
    = [ Build_Call MOVE_FORWARD 1 RELEASED (Some (Num 1%Z));
        Build_Call MOVE_RIGHT 4 RELEASED (Some (Num 1%Z)) ].
Proof. by vm_compute. Qed.

(** ** Dispatches that do not run to their end *)

(** C3, as the claim states it, fails. The w key is pressed while the
    player context is disabled: the tracker records the key as pressed. The
    context is enabled and the key is pressed again: the listener takes the
    key-down for a repetition and returns at once, so move-forward is not
    set to pressed and its handler is not invoked. No handler raises here. *)
Lemma press_after_enable_taken_for_repetition :
  let s0 := disableContext PLAYER movementService in
  let s1 := after (handleEvent neverRaises (KeyDown "w") s0) in
  let s2 := enableContext PLAYER s1 in
  let r := handleEvent neverRaises (KeyDown "w") s2 in
  getBinding MOVE_FORWARD s2
    = Some (mkBinding MOVE_FORWARD "w" (Some "arrowup") PLAYER "Move Forward" true)
  ∧ isContextEnabled PLAYER s2 = true
  ∧ handlersOf MOVE_FORWARD s2 = [1%nat]
  ∧ keyPressed "w" s2 = true
  ∧ completed r = true
  ∧ isActionInState MOVE_FORWARD PRESSED (after r) = false
  ∧ actionStates (after r) !! MOVE_FORWARD = None
  ∧ newCalls s2 (after r) = [].
Proof. by vm_compute. Qed.

(** C5, on the code. Attack-secondary, aim and grapple are bound to
    [mouse1] on the enabled player context, each with one handler; the
    handler of attack-secondary raises. The press of [mouse1] reaches the
    first match only: the exception leaves [processInputChange], aim and
    grapple are neither updated nor notified. (The defect is the one of C1:
    no invocation of a handler is guarded.) *)
Theorem raising_handler_hides_later_matches :
  let r := processInputChange (onlyRaises 1) "mouse1" true mouse1Service in
  affected "mouse1" mouse1Service = [ATTACK_SECONDARY; AIM; GRAPPLE]
  ∧ handlersOf AIM mouse1Service = [2%nat]
  ∧ handlersOf GRAPPLE mouse1Service = [3%nat]
  ∧ r.1 = Thrown 1%nat
  ∧ calls (after r) = [Build_Call ATTACK_SECONDARY 1 PRESSED None]
  ∧ actionStates (after r) !! ATTACK_SECONDARY = Some PRESSED
  ∧ actionStates (after r) !! AIM = None
  ∧ actionStates (after r) !! GRAPPLE = None.
Proof. by vm_compute. Qed.

(** C4, on the code. The handler of move-right raises. After the key-down
    of the d key the tracker holds a control of move-right as pressed and
    none of move-left, but the exception has left the listener before
    [updateAxisValues] ran: the axis value is still 0, where the claim has
    1. (The defect is the one of C1.) *)
Theorem raising_handler_leaves_axis_behind :
  let r := handleEvent (onlyRaises 4) (KeyDown "d") movementService in
  handlersOf MOVE_RIGHT movementService = [4%nat]
  ∧ r.1 = Thrown 4%nat
  ∧ isKeyForActionPressed MOVE_RIGHT (after r) = true
  ∧ isKeyForActionPressed MOVE_LEFT (after r) = false
  ∧ getAxisValue MOVE_RIGHT (after r) = 0%Z
  ∧ axisFor MOVE_RIGHT MOVE_LEFT (after r) = 1%Z.
Proof. by vm_compute. Qed.

(** The listeners update the axis values after they notify the handlers, so
    a handler is told the value from before the event: on the release of
    the d key, with nothing pressed any more, the handler of move-right is
    given 1. No handler raises here. *)
Example handler_is_told_previous_axis_value :
  let s1 := after (handleEvent neverRaises (KeyDown "d") movementService) in
  let s2 := after (handleEvent neverRaises (KeyUp "d") s1) in
  calls s2
  = [ Build_Call MOVE_RIGHT 4 PRESSED (Some (Num 0%Z));
      Build_Call MOVE_RIGHT 4 RELEASED (Some (Num 1%Z)) ]
  ∧ getAxisValue MOVE_RIGHT s2 = 0%Z.
Proof. by vm_compute. Qed.

(** C6, on the code. The keys w and d and the button [mouse1] are down,
    both movement axes are 1, and the handler of move-forward raises when it
    is told of a release. On loss of focus the listener releases w, the
    exception leaves it, and the rest is not done: d and [mouse1] are still
    held as pressed, move-right is still pressed and was not notified, and
    no axis value was set to 0. (The defect is the one of C1.) *)
Theorem raising_handler_leaves_controls_pressed :
  let r := handleWindowBlur (raisesOnRelease 1) heldService in
  run (raisesOnRelease 1)
    [Dom (KeyDown "w"); Dom (KeyDown "d"); Dom (MouseDown 1)] movementService
  = heldService
  ∧ keyStates heldService = [("w", true); ("d", true); ("mouse1", true)]
  ∧ r.1 = Thrown 1%nat
  ∧ keyStates (after r) = [("w", false); ("d", true); ("mouse1", true)]
  ∧ axisValues (after r) = [(MOVE_RIGHT, 1%Z); (MOVE_FORWARD, 1%Z)]
  ∧ actionStates (after r) !! MOVE_RIGHT = Some PRESSED
  ∧ newCalls heldService (after r)
    = [Build_Call MOVE_FORWARD 1 RELEASED (Some (Num 1%Z))].
Proof. by vm_compute. Qed.

(** * Further properties of the service *)

(** ** Every invocation is accounted for *)

Section Sound.
Context (raises : InputActionHandler → InputState → option InputValue → bool).

Lemma forOf_invoke_calls_full a st v handlers t :
  ∃ new,
    (forOf handlers (fun h => invoke raises a h st v) t).2
    = with_calls (fun l => l ++ new) t
    ∧ Forall (fun c => call_action c = a ∧ call_handler c ∈ handlers
                       ∧ call_state c = st ∧ call_value c = v) new.
Proof.
  revert t. induction handlers as [|h handlers IH]; intros t; simpl.
  - exists []. by rewrite with_calls_nil.
  - unfold bind at 1, invoke at 1. destruct (raises h st v); simpl.
    + exists [Build_Call a h st v]. split; [done|]. apply Forall_singleton.
      simpl. repeat split. left.
    + destruct (IH (with_calls (fun l => l ++ [Build_Call a h st v]) t))
        as (new & -> & Hnew).
      exists (Build_Call a h st v :: new). split.
      * unfold with_calls. simpl. by rewrite <- app_assoc.
      * apply Forall_cons. split; [simpl; repeat split; left|].
        eapply Forall_impl; [exact Hnew|]. simpl.
        intros c (? & ? & ? & ?). repeat split; try done. by right.
Qed.

Lemma notifyActionHandlers_calls_full a st s :
  ∃ new,
    (notifyActionHandlers raises a st s).2 = with_calls (fun l => l ++ new) s
    ∧ Forall (fun c => call_action c = a ∧ call_handler c ∈ handlersOf a s
                       ∧ call_state c = st ∧ call_value c = handlerValue a s) new.
Proof.
  unfold notifyActionHandlers, handlersOf.
  destruct (jsmap_get a (actionHandlers s)) as [handlers|].
  - apply forOf_invoke_calls_full.
  - exists []. by rewrite with_calls_nil.
Qed.

Lemma processInputChange_loop_sound key (pressed : bool) entries t :
  ∃ new m,
    (forOf entries
       (fun '(actionType, binding) (s : InputService) =>
          if negb (bool_decide (context binding ∈ activeContexts s)) then ret tt s
          else if bindingMatches binding key then
            let newState := if pressed then PRESSED else RELEASED in
            (modify (with_actionStates (insert actionType newState)) ;;
             notifyActionHandlers raises actionType newState) s
          else ret tt s) t).2
    = with_calls (fun l => l ++ new) (with_actionStates (fun _ => m) t)
    ∧ Forall (fun c =>
                call_action c ∈ affectedIn key (activeContexts t) entries
                ∧ call_handler c ∈ handlersOf (call_action c) t
                ∧ call_state c = stateFor pressed
                ∧ call_value c = handlerValue (call_action c) t) new
    ∧ (∀ a, m !! a = actionStates t !! a
            ∨ (a ∈ affectedIn key (activeContexts t) entries
               ∧ m !! a = Some (stateFor pressed))).
Proof.
  revert t. induction entries as [|[a' b'] entries IH]; intros t.
  - exists [], (actionStates t). simpl. rewrite with_calls_nil.
    split; [by destruct t|]. split; [done | by left].
  - simpl. unfold bind at 1.
    destruct (bool_decide (context b' ∈ activeContexts t)); simpl;
      [destruct (bindingMatches b' key); simpl|].
    + unfold bind at 1, modify at 1.
      set (st := if pressed then PRESSED else RELEASED).
      set (t1 := with_actionStates (insert a' st) t).
      destruct (notifyActionHandlers_calls_full a' st t1)
        as (new1 & Hnew1 & Hall1).
      assert (Hall1' : Forall (fun c =>
                call_action c ∈ a' :: affectedIn key (activeContexts t) entries
                ∧ call_handler c ∈ handlersOf (call_action c) t
                ∧ call_state c = stateFor pressed
                ∧ call_value c = handlerValue (call_action c) t) new1).
      { eapply Forall_impl; [exact Hall1|]. simpl.
        intros c (-> & Hh & Hs & Hv). repeat split; try done. left. }
      destruct (notifyActionHandlers raises a' st t1) as [[[]|h] t2];
        simpl in Hnew1; subst t2.
      * destruct (IH (with_calls (fun l => l ++ new1) t1))
          as (new2 & m2 & Heq & Hall2 & Hm2).
        exists (new1 ++ new2), m2. split; [|split].
        -- etrans; [exact Heq|].
           unfold with_calls, with_actionStates. simpl.
           by rewrite <- app_assoc.
        -- apply Forall_app. split; [done|].
           eapply Forall_impl; [exact Hall2|]. simpl.
           intros c (Ha & Hh & Hs & Hv). repeat split; try done. by right.
        -- intros a. destruct (Hm2 a) as [Hsame|[Ha Hst]].
           ++ simpl in Hsame. destruct (decide (a = a')) as [->|Hne].
              ** right. split; [left|]. rewrite Hsame.
                 by rewrite lookup_insert_eq.
              ** left. rewrite Hsame. by rewrite lookup_insert_ne.
           ++ right. split; [by right | done].
      * exists new1, (<[a' := st]> (actionStates t)). simpl.
        split; [done|]. split; [done|]. intros a.
        destruct (decide (a = a')) as [->|Hne].
        -- right. split; [left|]. by rewrite lookup_insert_eq.
        -- left. by rewrite lookup_insert_ne.
    + unfold ret at 1. apply IH.
    + unfold ret at 1. apply IH.
Qed.

Lemma processInputChange_sound key pressed s :
  ∃ new m,
    after (processInputChange raises key pressed s)
    = with_calls (fun l => l ++ new) (with_actionStates (fun _ => m) s)
    ∧ Forall (soundCall key pressed s) new
    ∧ (∀ a, m !! a = actionStates s !! a
            ∨ (a ∈ affected key s ∧ m !! a = Some (stateFor pressed))).
Proof. apply processInputChange_loop_sound. Qed.
End Sound.

Lemma soundCall_ext key pressed s t c :
  actionHandlers t = actionHandlers s →
  bindings t = bindings s →
  activeContexts t = activeContexts s →
  axisValues t = axisValues s →
  soundCall key pressed t c → soundCall key pressed s c.
Proof.
  unfold soundCall, affected, handlersOf, handlerValue, getAxisValue.
  by intros -> -> -> ->.
Qed.

Lemma dispatchedBy_refl trs s : dispatchedBy trs s s.
Proof.
  repeat split; try done.
  - exists []. by rewrite app_nil_r.
  - intros a. by left.
Qed.

Lemma dispatchedBy_keyStates trs s0 f t :
  dispatchedBy trs s0 t → dispatchedBy trs s0 (with_keyStates f t).
Proof. intros H. exact H. Qed.

Lemma dispatchedBy_axisValues_calls trs s0 f t :
  dispatchedBy trs s0 t →
  let t' := with_axisValues f t in
  actionHandlers t' = actionHandlers s0
  ∧ bindings t' = bindings s0
  ∧ activeContexts t' = activeContexts s0
  ∧ localStorage t' = localStorage s0.
Proof. intros (? & ? & ? & _ & ? & _). by repeat split. Qed.

Section SoundListeners.
Context (raises : InputActionHandler → InputState → option InputValue → bool).

Lemma dispatchedBy_processInputChange trs s0 key pressed :
  (key, pressed) ∈ trs →
  preserves (dispatchedBy trs s0) (processInputChange raises key pressed).
Proof.
  intros Hin t (Hh & Hb & Hc & Hax & Hls & (new0 & Hcalls & Hall0) & Hst).
  destruct (processInputChange_sound raises key pressed t)
    as (new & m & Heq & Hall & Hm).
  change ((processInputChange raises key pressed t).2)
    with (after (processInputChange raises key pressed t)).
  rewrite Heq. repeat split; try done.
  - exists (new0 ++ new). split.
    + simpl. by rewrite Hcalls, app_assoc.
    + apply Forall_app. split; [done|].
      eapply Forall_impl; [exact Hall|]. simpl. intros c Hc'.
      exists key, pressed. split; [done|]. by eapply soundCall_ext.
  - intros a. simpl. destruct (Hm a) as [Hsame|[Ha Hnew]].
    + rewrite Hsame. apply Hst.
    + right. exists key, pressed. split; [done|]. split; [|done].
      unfold affected in *. by rewrite <- Hc, <- Hb.
Qed.

Lemma updateAxisValues_as_write t :
  updateAxisValues t
  = with_axisValues (fun _ => axisValues (updateAxisValues t)) t.
Proof. reflexivity. Qed.

Lemma with_axisValues_same t : with_axisValues (fun m => m) t = t.
Proof. by destruct t. Qed.

(** Every listener is a dispatch phase followed by a write to the axis
    values (or by nothing). *)
Lemma handleEvent_dispatchedBy e s :
  ∃ t f,
    dispatchedBy (transitions e s) s t
    ∧ after (handleEvent raises e s) = with_axisValues f t.
Proof.
  destruct e as [k|k|n|n| |]; simpl.
  - unfold handleKeyDown. destruct (keyPressed (toLowerCase k) s) eqn:Hrep.
    { exists s, (fun m => m). split; [apply dispatchedBy_refl|].
      by rewrite with_axisValues_same. }
    unfold after, bind, modify.
    pose proof (dispatchedBy_processInputChange
                  [(toLowerCase k, true)] s (toLowerCase k) true
                  ltac:(left)
                  (with_keyStates (jsmap_set (toLowerCase k) true) s)
                  (dispatchedBy_refl _ s)) as Hd.
    destruct (processInputChange raises (toLowerCase k) true _) as [[[]|h] t];
      simpl in *.
    + exists t, (fun _ => axisValues (updateAxisValues t)). by split.
    + exists t, (fun m => m). split; [done|]. by rewrite with_axisValues_same.
  - unfold handleKeyUp, after, bind, modify.
    pose proof (dispatchedBy_processInputChange
                  [(toLowerCase k, false)] s (toLowerCase k) false
                  ltac:(left)
                  (with_keyStates (jsmap_set (toLowerCase k) false) s)
                  (dispatchedBy_refl _ s)) as Hd.
    destruct (processInputChange raises (toLowerCase k) false _) as [[[]|h] t];
      simpl in *.
    + exists t, (fun _ => axisValues (updateAxisValues t)). by split.
    + exists t, (fun m => m). split; [done|]. by rewrite with_axisValues_same.
  - unfold handleMouseDown, after, bind, modify.
    pose proof (dispatchedBy_processInputChange
                  [(mouseToken n, true)] s (mouseToken n) true
                  ltac:(left)
                  (with_keyStates (jsmap_set (mouseToken n) true) s)
                  (dispatchedBy_refl _ s)) as Hd.
    exists (processInputChange raises (mouseToken n) true
              (with_keyStates (jsmap_set (mouseToken n) true) s)).2,
      (fun m => m).
    split; [done|]. rewrite with_axisValues_same.
    by destruct (processInputChange raises (mouseToken n) true _) as [[[]|h] t].
  - unfold handleMouseUp, after, bind, modify.
    pose proof (dispatchedBy_processInputChange
                  [(mouseToken n, false)] s (mouseToken n) false
                  ltac:(left)
                  (with_keyStates (jsmap_set (mouseToken n) false) s)
                  (dispatchedBy_refl _ s)) as Hd.
    exists (processInputChange raises (mouseToken n) false
              (with_keyStates (jsmap_set (mouseToken n) false) s)).2,
      (fun m => m).
    split; [done|]. rewrite with_axisValues_same.
    by destruct (processInputChange raises (mouseToken n) false _) as [[[]|h] t].
  - exists s, (jsmap_set CAMERA_LOOK 0%Z). split; [apply dispatchedBy_refl|done].
  - unfold handleWindowBlur.
    set (trs := (fun kp : string * bool => (kp.1, false))
                  <$> filter (fun kp => kp.2 = true) (keyStates s)).
    assert (Hloop : preserves (dispatchedBy trs s)
              (forOf (keyStates s)
                 (fun '(key, pressed) =>
                    if pressed : bool then
                      modify (with_keyStates (jsmap_set key false)) ;;
                      processInputChange raises key false
                    else ret tt))).
    { apply preserves_forOf. intros [key pressed] Hin.
      destruct pressed; [|apply preserves_ret].
      apply preserves_bind.
      - apply preserves_modify. intros t. apply dispatchedBy_keyStates.
      - intros _. apply dispatchedBy_processInputChange.
        unfold trs. apply list_elem_of_fmap. exists (key, true).
        split; [done|]. by apply list_elem_of_filter. }
    specialize (Hloop s (dispatchedBy_refl _ s)).
    unfold after, bind at 1.
    destruct (forOf (keyStates s) _ s) as [[[]|h] t]; simpl in *.
    + exists t, (fun m => foldl (fun m a => jsmap_set a 0%Z m) m
                          (jsmap_keys (axisValues t))).
      split; [done|].
      rewrite (forOf_modify (fun a => with_axisValues (jsmap_set a 0%Z))).
      simpl. apply zeroAxes_spec.
    + exists t, (fun m => m). split; [done|]. by rewrite with_axisValues_same.
Qed.
End SoundListeners.

(** What an event does to the service, whatever the handlers do. *)
Lemma handleEvent_effects
    (raises : InputActionHandler → InputState → option InputValue → bool)
    (e : DomEvent) (s : InputService) :
  let s' := after (handleEvent raises e s) in
  actionHandlers s' = actionHandlers s
  ∧ bindings s' = bindings s
  ∧ activeContexts s' = activeContexts s
  ∧ localStorage s' = localStorage s
  ∧ (∃ new, calls s' = calls s ++ new
            ∧ ∀ c, c ∈ new →
                ∃ key pressed, (key, pressed) ∈ transitions e s
                               ∧ soundCall key pressed s c)
  ∧ (∀ a, actionStates s' !! a = actionStates s !! a
          ∨ ∃ key pressed, (key, pressed) ∈ transitions e s
                           ∧ a ∈ affected key s
                           ∧ actionStates s' !! a = Some (stateFor pressed)).
Proof.
  intros s'. unfold s'.
  destruct (handleEvent_dispatchedBy raises e s) as (t & f & Hd & ->).
  destruct Hd as (Hh & Hb & Hc & Hax & Hls & (new & Hcalls & Hall) & Hst).
  repeat split; try done.
  exists new. split; [done|]. by apply Forall_forall.
Qed.

(** X1. Whatever the handlers do, an input event leaves the handler sets,
    the binding table, the enabled contexts and the storage item as they
    were; it only appends to the call log, and each invocation it appends is
    of a handler registered for an action whose binding names the control of
    the event on an enabled context, with the state of the event and the
    value of that action; and the state of an action changes only if the
    action is such an action, to the state of the event. *)
Theorem event_effects_accounted
    (raises : InputActionHandler → InputState → option InputValue → bool)
    (e : DomEvent) (s : InputService) :
  let s' := after (handleEvent raises e s) in
  actionHandlers s' = actionHandlers s
  ∧ bindings s' = bindings s
  ∧ activeContexts s' = activeContexts s
  ∧ localStorage s' = localStorage s
  ∧ (∃ new, calls s' = calls s ++ new
            ∧ ∀ c, c ∈ new →
                ∃ key pressed, (key, pressed) ∈ transitions e s
                               ∧ soundCall key pressed s c)
  ∧ (∀ a, actionStates s' !! a = actionStates s !! a
          ∨ ∃ key pressed, (key, pressed) ∈ transitions e s
                           ∧ a ∈ affected key s
                           ∧ actionStates s' !! a = Some (stateFor pressed)).
Proof. apply handleEvent_effects. Qed.

(** ** Registering and unregistering handlers *)

Lemma jsmap_set_set {K V} `{EqDecision K} (k : K) (v w : V) (m : JsMap K V) :
  jsmap_set k v (jsmap_set k w m) = jsmap_set k v m.
Proof.
  induction m as [|[k' v'] m IH]; simpl.
  - by rewrite decide_True.
  - destruct (decide (k = k')) as [->|Hne]; simpl.
    + by rewrite decide_True.
    + rewrite decide_False by done. by rewrite IH.
Qed.

Lemma jsset_add_elem {A} `{EqDecision A} (x : A) (s : JsSet A) :
  x ∈ jsset_add x s.
Proof.
  unfold jsset_add, jsset_has. case_bool_decide; [done|].
  apply elem_of_app. right. left.
Qed.

Lemma jsset_add_add {A} `{EqDecision A} (x : A) (s : JsSet A) :
  jsset_add x (jsset_add x s) = jsset_add x s.
Proof.
  pose proof (jsset_add_elem x s) as Hin.
  unfold jsset_add at 1. unfold jsset_has. by rewrite bool_decide_eq_true_2.
Qed.

Lemma jsset_delete_delete {A} `{EqDecision A} (x : A) (s : JsSet A) :
  jsset_delete x (jsset_delete x s) = jsset_delete x s.
Proof.
  unfold jsset_delete. apply list_filter_filter_l. by intros y.
Qed.

Lemma jsset_delete_fresh {A} `{EqDecision A} (x : A) (s : JsSet A) :
  x ∉ s → jsset_delete x (jsset_add x s) = s.
Proof.
  intros Hx. unfold jsset_add, jsset_has, jsset_delete.
  rewrite bool_decide_eq_false_2 by done.
  rewrite filter_app.
  rewrite (filter_singleton_False (fun y => y ≠ x) x []) by (intros Hne; done).
  rewrite app_nil_r.
  induction s as [|y s IH]; [done|].
  apply not_elem_of_cons in Hx as [Hne Hx].
  rewrite filter_cons_True by done. by rewrite IH.
Qed.

Lemma registerActionHandler_handlersOf a h s a' :
  handlersOf a' (registerActionHandler a h s)
  = if decide (a' = a) then jsset_add h (handlersOf a s) else handlersOf a' s.
Proof.
  unfold handlersOf, registerActionHandler. simpl.
  unfold jsmap_has.
  destruct (decide (a' = a)) as [->|Hne].
  - rewrite jsmap_get_set_eq. simpl.
    destruct (jsmap_get a (actionHandlers s)) as [hs|] eqn:Hget.
    + by rewrite Hget.
    + by rewrite jsmap_get_set_eq.
  - rewrite jsmap_get_set_ne by done.
    destruct (jsmap_get a (actionHandlers s)); [done|].
    by rewrite jsmap_get_set_ne.
Qed.

Lemma unregister_handlersOf a h s a' :
  handlersOf a' (unregister a h s)
  = if decide (a' = a) then jsset_delete h (handlersOf a s) else handlersOf a' s.
Proof.
  unfold handlersOf, unregister.
  destruct (jsmap_get a (actionHandlers s)) as [hs|] eqn:Hget; simpl.
  - destruct (decide (a' = a)) as [->|Hne].
    + by rewrite jsmap_get_set_eq.
    + by rewrite jsmap_get_set_ne.
  - destruct (decide (a' = a)) as [->|Hne]; [by rewrite Hget | done].
Qed.

(** X2. The handlers of an action form a set kept in the order of
    registration: registering a handler puts it last unless it is there
    already, registering it again changes nothing, and the sets of the
    other actions are untouched. *)
Theorem registerActionHandler_set_semantics
    (a : InputActionType) (h : InputActionHandler) (s : InputService) :
  let s' := registerActionHandler a h s in
  handlersOf a s'
    = (if bool_decide (h ∈ handlersOf a s) then handlersOf a s
       else handlersOf a s ++ [h])
  ∧ (h ∈ handlersOf a s')
  ∧ (∀ a', a' ≠ a → handlersOf a' s' = handlersOf a' s)
  ∧ registerActionHandler a h s' = s'.
Proof.
  intros s'. unfold s'. repeat split.
  - rewrite registerActionHandler_handlersOf, decide_True by done. done.
  - rewrite registerActionHandler_handlersOf, decide_True by done.
    apply jsset_add_elem.
  - intros a' Hne. by rewrite registerActionHandler_handlersOf, decide_False.
  - unfold registerActionHandler. simpl.
    set (m1 := if jsmap_has a (actionHandlers s) then actionHandlers s
               else jsmap_set a [] (actionHandlers s)).
    set (hs := default [] (jsmap_get a m1)).
    unfold jsmap_has. rewrite !jsmap_get_set_eq. simpl.
    by rewrite jsset_add_add, jsmap_set_set.
Qed.

(** X3. The closure that a registration returns removes that handler from
    the set of that action and nothing else; calling it again, or when the
    handler is not registered, changes no handler set; and it undoes the
    registration of a handler that was not registered before. *)
Theorem unregister_undoes_registration
    (a : InputActionType) (h : InputActionHandler) (s : InputService) :
  let s' := unregister a h s in
  handlersOf a s' = filter (fun y => y ≠ h) (handlersOf a s)
  ∧ (h ∉ handlersOf a s')
  ∧ (∀ a', a' ≠ a → handlersOf a' s' = handlersOf a' s)
  ∧ (∀ a', handlersOf a' (unregister a h s') = handlersOf a' s')
  ∧ (jsmap_get a (actionHandlers s) = None → s' = s)
  ∧ (h ∉ handlersOf a s →
     ∀ a', handlersOf a' (unregister a h (registerActionHandler a h s))
           = handlersOf a' s).
Proof.
  intros s'. unfold s'. repeat split.
  - by rewrite unregister_handlersOf, decide_True.
  - rewrite unregister_handlersOf, decide_True by done.
    unfold jsset_delete. rewrite list_elem_of_filter. by intros [? _].
  - intros a' Hne. by rewrite unregister_handlersOf, decide_False.
  - intros a'. rewrite !unregister_handlersOf.
    destruct (decide (a' = a)) as [->|]; [|done].
    rewrite decide_True by done. apply jsset_delete_delete.
  - intros Hnone. unfold unregister. by rewrite Hnone.
  - intros Hfresh a'.
    rewrite unregister_handlersOf, !registerActionHandler_handlersOf.
    destruct (decide (a' = a)) as [->|]; [|done].
    rewrite decide_True by done. by apply jsset_delete_fresh.
Qed.

Lemma jsset_add_inv {A} `{EqDecision A} (x y : A) (s : JsSet A) :
  y ∈ jsset_add x s → y = x ∨ y ∈ s.
Proof.
  unfold jsset_add. destruct (jsset_has x s); [by right|].
  rewrite elem_of_app, list_elem_of_singleton. tauto.
Qed.

Lemma step_calls raises r s :
  ∃ new, calls (step raises r s) = calls s ++ new
         ∧ ∀ c, c ∈ new → call_handler c ∈ handlersOf (call_action c) s.
Proof.
  destruct r as [a h|a h|c|c|a p sec| | | |e|item]; simpl;
    try (exists []; split; [by rewrite app_nil_r | by intros ? ?%elem_of_nil]).
  - exists []. split; [|by intros ? ?%elem_of_nil]. rewrite app_nil_r.
    unfold unregister. by destruct (jsmap_get a (actionHandlers s)).
  - exists []. split; [|by intros ? ?%elem_of_nil]. rewrite app_nil_r.
    unfold rebindAction. destruct (jsmap_get a (bindings s)) as [b|]; [|done].
    by destruct (negb (rebindable b)).
  - exists []. split; [|by intros ? ?%elem_of_nil]. rewrite app_nil_r.
    unfold loadBindings. by destruct (localStorage s).
  - destruct (handleEvent_effects raises e s)
      as (_ & _ & _ & _ & (new & Hcalls & Hall) & _).
    exists new. split; [done|]. intros c Hc.
    destruct (Hall c Hc) as (key & pressed & _ & _ & Hh & _). done.
Qed.

Lemma step_handlersOf_without raises r s a h :
  r ≠ RegisterActionHandler a h →
  h ∉ handlersOf a s → h ∉ handlersOf a (step raises r s).
Proof.
  intros Hr Hh.
  destruct r as [a' h'|a' h'|c|c|a' p sec| | | |e|item]; simpl; try done.
  - rewrite registerActionHandler_handlersOf.
    destruct (decide (a = a')) as [->|]; [|done].
    intros [->|Hin]%jsset_add_inv; [by destruct Hr | done].
  - rewrite unregister_handlersOf.
    destruct (decide (a = a')) as [->|]; [|done].
    unfold jsset_delete. rewrite list_elem_of_filter. by intros [_ ?].
  - unfold rebindAction. destruct (jsmap_get a' (bindings s)) as [b|]; [|done].
    by destruct (negb (rebindable b)).
  - unfold loadBindings. by destruct (localStorage s).
  - destruct (handleEvent_effects raises e s) as (Heq & _).
    unfold handlersOf in *. by rewrite Heq.
Qed.

Lemma run_calls_without raises rs s a h :
  Forall (fun r => r ≠ RegisterActionHandler a h) rs →
  h ∉ handlersOf a s →
  ∃ new, calls (run raises rs s) = calls s ++ new
         ∧ Forall (fun c => ¬ (call_action c = a ∧ call_handler c = h)) new.
Proof.
  intros Hrs. revert s. induction Hrs as [|r rs Hr Hrs IH]; intros s Hh.
  - exists []. by rewrite app_nil_r.
  - simpl. destruct (step_calls raises r s) as (new1 & Hc1 & Hall1).
    destruct (IH (step raises r s)) as (new2 & Hc2 & Hall2).
    { by apply step_handlersOf_without. }
    exists (new1 ++ new2). split.
    + by rewrite Hc2, Hc1, app_assoc.
    + apply Forall_app. split; [|done]. apply Forall_forall.
      intros c Hc [Ha Hch]. specialize (Hall1 c Hc).
      rewrite Ha, Hch in Hall1. done.
Qed.

(** X4. Once a handler is unregistered from an action it is not invoked
    for that action any more, whatever requests and events follow and
    whatever the handlers do, as long as it is not registered for the
    action again. *)
Theorem unregistered_handler_stays_silent
    (raises : InputActionHandler → InputState → option InputValue → bool)
    (a : InputActionType) (h : InputActionHandler)
    (rs : list Request) (s : InputService) :
  Forall (fun r => r ≠ RegisterActionHandler a h) rs →
  let s1 := unregister a h s in
  ∀ c, c ∈ newCalls s1 (run raises rs s1) →
       ¬ (call_action c = a ∧ call_handler c = h).
Proof.
  intros Hrs s1 c.
  destruct (run_calls_without raises rs s1 a h Hrs) as (new & Hcalls & Hall).
  { unfold s1. rewrite unregister_handlersOf, decide_True by done.
    unfold jsset_delete. rewrite list_elem_of_filter. by intros [? _]. }
  rewrite (newCalls_app _ _ _ Hcalls). rewrite Forall_forall in Hall.
  apply Hall.
Qed.

Lemma unregistered_handler_stays_silent_witness :
  let rs := [Dom (KeyDown "w"); EnableContext UI; Dom (KeyUp "w"); Dom Blur] in
  Forall (fun r => r ≠ RegisterActionHandler MOVE_FORWARD 1%nat) rs
  ∧ ∀ c, c ∈ newCalls (unregister MOVE_FORWARD 1%nat movementService)
               (run (onlyRaises 4) rs
                  (unregister MOVE_FORWARD 1%nat movementService)) →
         ¬ (call_action c = MOVE_FORWARD ∧ call_handler c = 1%nat).
Proof.
  intros rs.
  assert (H : Forall (fun r => r ≠ RegisterActionHandler MOVE_FORWARD 1%nat) rs).
  { unfold rs. repeat constructor; discriminate. }
  split; [exact H|].
  exact (unregistered_handler_stays_silent (onlyRaises 4) MOVE_FORWARD 1%nat
           rs movementService H).
Defined.

(** ** Actions behind a disabled context *)

(** X5. While the context of an action's binding is disabled, no input
    event, the loss of focus included, changes the state of the action or
    invokes a handler for it, whatever the handlers do. In particular an
    action that is pressed when its context is disabled stays pressed; the
    key-up is not delivered to it. *)
Theorem disabled_context_freezes_action
    (raises : InputActionHandler → InputState → option InputValue → bool)
    (s : InputService) (a : InputActionType) (b : IInputBinding) (e : DomEvent) :
  NoDup (jsmap_keys (bindings s)) →
  getBinding a s = Some b →
  context b ∉ activeContexts s →
  let s' := after (handleEvent raises e s) in
  actionStates s' !! a = actionStates s !! a
  ∧ ∀ c, c ∈ newCalls s s' → call_action c ≠ a.
Proof.
  intros Hnd Hget Hoff s'.
  assert (Hun : ∀ key, a ∉ affected key s).
  { intros key (b' & Hin & Hlive & _)%affectedIn_elem.
    apply (jsmap_get_NoDup_elem _ _ _ Hnd) in Hin.
    unfold getBinding in Hget. congruence. }
  destruct (handleEvent_effects raises e s)
    as (_ & _ & _ & _ & (new & Hcalls & Hall) & Hst). fold s' in Hcalls, Hst.
  split.
  - destruct (Hst a) as [Hsame|(key & pressed & _ & Ha & _)]; [done|].
    by destruct (Hun key).
  - intros c. rewrite (newCalls_app _ _ _ Hcalls). intros Hc Heq.
    destruct (Hall c Hc) as (key & pressed & _ & Ha & _).
    rewrite Heq in Ha. by destruct (Hun key).
Qed.

Lemma disabled_context_freezes_action_witness :
  let s0 := after (handleEvent neverRaises (KeyDown "w") movementService) in
  let s := disableContext PLAYER s0 in
  let s' := after (handleEvent neverRaises (KeyUp "w") s) in
  actionStates s !! MOVE_FORWARD = Some PRESSED
  ∧ keyPressed "w" s' = false
  ∧ actionStates s' !! MOVE_FORWARD = actionStates s !! MOVE_FORWARD
  ∧ ∀ c, c ∈ newCalls s s' → call_action c ≠ MOVE_FORWARD.
Proof.
  intros s0 s s'. split; [by vm_compute|]. split; [by vm_compute|].
  apply (disabled_context_freezes_action neverRaises s MOVE_FORWARD
           (mkBinding MOVE_FORWARD "w" (Some "arrowup") PLAYER
              "Move Forward" true) (KeyUp "w")).
  - apply (bool_decide_unpack _). vm_compute; reflexivity.
  - vm_compute; reflexivity.
  - apply (bool_decide_unpack _). vm_compute; reflexivity.
Defined.

(** ** Invariants of a running service *)

Lemma Forall_jsmap_set {K V} `{EqDecision K} (P : K * V → Prop) k v (m : JsMap K V) :
  Forall P m → P (k, v) → Forall P (jsmap_set k v m).
Proof.
  intros Hm Hkv. induction m as [|[k' v'] m IH]; simpl.
  - by apply Forall_singleton.
  - apply Forall_cons in Hm as [Hk' Hm].
    destruct (decide (k = k')); apply Forall_cons; auto.
Qed.

Lemma axisRange_set a v s :
  axisRange s →
  ((a = MOVE_RIGHT ∨ a = MOVE_FORWARD) ∧ (-1 ≤ v ≤ 1)%Z) ∨ v = 0%Z →
  axisRange (with_axisValues (jsmap_set a v) s).
Proof.
  intros Hs Hav. unfold axisRange. simpl. apply Forall_jsmap_set; [done|].
  simpl. destruct Hav as [[[-> | ->] Hv] | ->]; split; try done; lia.
Qed.

Lemma axisRange_updateAxisValues s : axisRange s → axisRange (updateAxisValues s).
Proof.
  intros Hs. unfold updateAxisValues.
  apply axisRange_set; [apply axisRange_set; [done|]|]; left.
  - split; [by left|].
    destruct (isKeyForActionPressed MOVE_RIGHT s),
      (isKeyForActionPressed MOVE_LEFT s); lia.
  - split; [by right|].
    destruct (isKeyForActionPressed MOVE_FORWARD _),
      (isKeyForActionPressed MOVE_BACKWARD _); lia.
Qed.

Lemma axisRange_handleEvent raises e s :
  axisRange s → axisRange (after (handleEvent raises e s)).
Proof.
  assert (Hpic : ∀ key pressed,
    preserves axisRange (processInputChange raises key pressed)).
  { intros key pressed. by apply preserves_processInputChange. }
  revert s. change (preserves axisRange (handleEvent raises e)).
  destruct e as [k|k|n|n| |]; simpl.
  - intros s Hs. unfold handleKeyDown. destruct (keyPressed _ s); [done|].
    revert s Hs. apply preserves_bind; [by apply preserves_modify|].
    intros _. apply preserves_bind; [apply Hpic|].
    intros _. apply preserves_modify, axisRange_updateAxisValues.
  - apply preserves_bind; [by apply preserves_modify|].
    intros _. apply preserves_bind; [apply Hpic|].
    intros _. apply preserves_modify, axisRange_updateAxisValues.
  - apply preserves_bind; [by apply preserves_modify | intros _; apply Hpic].
  - apply preserves_bind; [by apply preserves_modify | intros _; apply Hpic].
  - apply preserves_modify. intros s Hs. apply axisRange_set; [done | by right].
  - intros s Hs. unfold handleWindowBlur. revert Hs.
    generalize (keyStates s). intros ks. revert s.
    apply (preserves_bind axisRange).
    + apply preserves_forOf. intros [key pressed] _.
      destruct pressed; [|apply preserves_ret].
      apply preserves_bind; [by apply preserves_modify | intros _; apply Hpic].
    + intros _ s Hs. revert Hs. generalize (jsmap_keys (axisValues s)).
      intros ks'. revert s. apply (preserves_forOf axisRange ks').
      intros a _. apply preserves_modify. intros s Hs.
      apply axisRange_set; [done | by right].
Qed.

Lemma axisRange_getAxisValue s a :
  axisRange s →
  (-1 ≤ getAxisValue a s ≤ 1)%Z ∧ (a = CAMERA_LOOK → getAxisValue a s = 0%Z).
Proof.
  intros Hs. unfold getAxisValue.
  destruct (jsmap_get a (axisValues s)) as [v|] eqn:Hget; simpl; [|split; [lia|done]].
  apply jsmap_get_Some_elem in Hget. unfold axisRange in Hs.
  rewrite Forall_forall in Hs. apply (Hs (a, v) Hget).
Qed.

Lemma CAMERA_LOOK_unbound : CAMERA_LOOK ∉ action <$> defaultBindings.
Proof. apply (bool_decide_unpack _). by vm_compute. Qed.

Lemma tableOK_affected s key a :
  tableOK s → a ∈ affected key s → a ∈ action <$> defaultBindings.
Proof.
  intros (l & Hl & Hacts) (b & Hin & _)%affectedIn_elem.
  rewrite <- Hacts, <- jsmap_keys_table_of, <- Hl.
  unfold jsmap_keys. apply list_elem_of_fmap. by exists (a, b).
Qed.

Lemma soundCall_ok s key pressed c :
  tableOK s → axisRange s → soundCall key pressed s c →
  call_state c ≠ HELD
  ∧ call_action c ∈ action <$> defaultBindings
  ∧ payloadOK c.
Proof.
  intros Ht Hax (Ha & _ & Hst & Hv).
  pose proof (tableOK_affected s key _ Ht Ha) as Hbound.
  split; [rewrite Hst; by destruct pressed|]. split; [done|].
  unfold payloadOK. rewrite Hv. unfold handlerValue.
  destruct (isMovement (call_action c)).
  - eexists. split; [done|]. by apply axisRange_getAxisValue.
  - destruct (decide (call_action c = CAMERA_LOOK)) as [Heq|]; [|done].
    rewrite Heq in Hbound. by destruct CAMERA_LOOK_unbound.
Qed.

Lemma serviceOK_step raises r s : serviceOK s → serviceOK (step raises r s).
Proof.
  intros (Ht & Hax & Hst & Hc).
  assert (Ht' : tableOK (step raises r s)).
  { destruct Ht as (l & Hl & Hacts). by eapply step_table. }
  split; [done|].
  destruct r as [a h|a h|c|c|a p sec| | | |e|item]; simpl in *; try done.
  - unfold unregister. by destruct (jsmap_get a (actionHandlers s)).
  - unfold rebindAction in *.
    destruct (jsmap_get a (bindings s)) as [b|]; [|done].
    by destruct (negb (rebindable b)).
  - unfold loadBindings in *. by destruct (localStorage s).
  - split; [by apply axisRange_handleEvent|].
    destruct (handleEvent_effects raises e s)
      as (_ & _ & _ & _ & (new & Hcalls & Hall) & Hstates).
    split.
    + intros a st Ha.
      destruct (Hstates a) as [Hsame|(key & pressed & _ & Haff & Hnew)].
      * apply Hst. by rewrite <- Hsame.
      * rewrite Hnew in Ha. injection Ha as <-.
        split; [by destruct pressed | exact (tableOK_affected s key a Ht Haff)].
    + unfold callsOK. rewrite Hcalls. apply Forall_app. split; [done|].
      apply Forall_forall. intros c Hin.
      destruct (Hall c Hin) as (key & pressed & _ & Hsound).
      exact (soundCall_ok s key pressed c Ht Hax Hsound).
Qed.

Lemma serviceOK_new item : serviceOK (new_InputService item).
Proof.
  split; [|split; [|split]].
  - apply (loadBindings_table (resetBindings (fields item)) defaultBindings).
    apply resetBindings_table.
  - unfold axisRange, new_InputService, enableContext, loadBindings. simpl.
    by destruct item.
  - intros a st. unfold new_InputService, enableContext, loadBindings. simpl.
    destruct item; simpl; by rewrite lookup_empty.
  - unfold callsOK, new_InputService, enableContext, loadBindings. simpl.
    by destruct item.
Qed.

Lemma serviceOK_run raises item rs :
  serviceOK (run raises rs (new_InputService item)).
Proof.
  generalize (serviceOK_new item). generalize (new_InputService item).
  induction rs as [|r rs IH]; intros s Hs; simpl; [done|].
  by apply IH, serviceOK_step.
Qed.

(** X6. An action that the default table does not bind (pick-up, drop,
    pause, the quest log, the vehicle and camera actions) stays out of the
    service for good: in every state that a constructed service reaches, for
    any stored bindings and any handler behaviour, it has no binding, it
    cannot be rebound, it is in no state, and no handler was ever invoked
    for it. *)
Theorem unbound_action_is_inert
    (raises : InputActionHandler → InputState → option InputValue → bool)
    (item : StorageItem) (rs : list Request) (a : InputActionType) :
  a ∉ action <$> defaultBindings →
  let s := run raises rs (new_InputService item) in
  getBinding a s = None
  ∧ (∀ p sec, rebindAction a p sec s = (false, s))
  ∧ (∀ st, isActionInState a st s = false)
  ∧ (∀ c, c ∈ calls s → call_action c ≠ a).
Proof.
  intros Ha s.
  destruct (serviceOK_run raises item rs) as ((l & Hl & Hacts) & _ & Hst & Hc).
  fold s in Hl, Hst, Hc.
  assert (Hnone : jsmap_get a (bindings s) = None).
  { destruct (jsmap_get a (bindings s)) as [b|] eqn:Hget; [|done].
    apply jsmap_get_Some_elem in Hget. destruct Ha.
    rewrite <- Hacts, <- jsmap_keys_table_of, <- Hl.
    unfold jsmap_keys. apply list_elem_of_fmap. by exists (a, b). }
  split; [done|]. split; [|split].
  - intros p sec. unfold rebindAction. by rewrite Hnone.
  - intros st. unfold isActionInState. apply bool_decide_eq_false.
    intros Hin. by destruct (Hst a st Hin) as [_ Hbound].
  - intros c Hin Heq. unfold callsOK in Hc. rewrite Forall_forall in Hc.
    destruct (Hc c Hin) as (_ & Hbound & _). by rewrite Heq in Hbound.
Qed.

Lemma unbound_action_is_inert_witness :
  (PAUSE ∉ action <$> defaultBindings)
  ∧ let s := run (onlyRaises 1)
               [RegisterActionHandler PAUSE 1%nat; Dom (KeyDown "p");
                RebindAction PAUSE "p" None; Dom (KeyUp "p")]
               (new_InputService NoItem) in
    getBinding PAUSE s = None
    ∧ (∀ p sec, rebindAction PAUSE p sec s = (false, s))
    ∧ (∀ st, isActionInState PAUSE st s = false)
    ∧ (∀ c, c ∈ calls s → call_action c ≠ PAUSE).
Proof.
  assert (H : PAUSE ∉ action <$> defaultBindings)
    by (apply (bool_decide_unpack _); vm_compute; exact I).
  split; [exact H|].
  exact (unbound_action_is_inert (onlyRaises 1) NoItem
           [RegisterActionHandler PAUSE 1%nat; Dom (KeyDown "p");
            RebindAction PAUSE "p" None; Dom (KeyUp "p")] PAUSE H).
Defined.

(** X7. The state held is never produced: in every state that a constructed
    service reaches, no action is in it and no handler was told of it; and
    every invocation made carried a number from -1 to 1 when it was for one
    of the four movement actions, and no value otherwise. *)
Theorem held_never_occurs
    (raises : InputActionHandler → InputState → option InputValue → bool)
    (item : StorageItem) (rs : list Request) :
  let s := run raises rs (new_InputService item) in
  (∀ a, isActionInState a HELD s = false)
  ∧ (∀ c, c ∈ calls s →
       call_state c ≠ HELD
       ∧ if isMovement (call_action c)
         then ∃ v, call_value c = Some (Num v) ∧ (-1 ≤ v ≤ 1)%Z
         else call_value c = None).
Proof.
  intros s.
  destruct (serviceOK_run raises item rs) as (_ & _ & Hst & Hc).
  fold s in Hst, Hc. split.
  - intros a. unfold isActionInState. apply bool_decide_eq_false.
    intros Hin. by destruct (Hst a HELD Hin) as [Hne _].
  - intros c Hin. unfold callsOK in Hc. rewrite Forall_forall in Hc.
    destruct (Hc c Hin) as (Hne & _ & Hp). by split.
Qed.

(** X8. In every state that a constructed service reaches, for any handler
    behaviour, the axis value of every action is -1, 0 or 1, so both
    components of every 2D vector are; and the one of camera-look is 0. *)
Theorem axis_values_in_range
    (raises : InputActionHandler → InputState → option InputValue → bool)
    (item : StorageItem) (rs : list Request) :
  let s := run raises rs (new_InputService item) in
  (∀ a, getAxisValue a s ∈ [-1; 0; 1]%Z)
  ∧ (∀ h v, (getVector2Value h v s).1 ∈ [-1; 0; 1]%Z
            ∧ (getVector2Value h v s).2 ∈ [-1; 0; 1]%Z)
  ∧ getAxisValue CAMERA_LOOK s = 0%Z.
Proof.
  intros s.
  destruct (serviceOK_run raises item rs) as (_ & Hax & _). fold s in Hax.
  assert (Hin : ∀ a, getAxisValue a s ∈ [-1; 0; 1]%Z).
  { intros a. destruct (axisRange_getAxisValue s a Hax) as [Hr _].
    rewrite !elem_of_cons. lia. }
  split; [done|]. split.
  - intros h v. simpl. by split.
  - by apply axisRange_getAxisValue.
Qed.

(** ** The binding table when only the service writes the storage item *)

Lemma lower_ascii_idemp c : lower_ascii (lower_ascii c) = lower_ascii c.
Proof. by destruct c as [[] [] [] [] [] [] [] []]. Qed.

Lemma toLowerCase_idemp x : toLowerCase (toLowerCase x) = toLowerCase x.
Proof. induction x as [|c x IH]; simpl; [done|]. by rewrite lower_ascii_idemp, IH. Qed.

Lemma truthy_toLowerCase x : truthy (toLowerCase x) = truthy x.
Proof. by destruct x. Qed.

Lemma defaultBindings_fromDefault : Forall fromDefault defaultBindings.
Proof.
  unfold defaultBindings.
  repeat (apply Forall_cons; split;
          [eexists; split; [by vm_compute|]; by repeat split |]).
  apply Forall_nil_2.
Qed.

Lemma defaultBindings_own :
  Forall (fun kv : InputActionType * IInputBinding =>
            kv.1 = action kv.2 ∧ fromDefault kv.2) (table_of defaultBindings).
Proof.
  unfold table_of. apply Forall_fmap.
  eapply Forall_impl; [apply defaultBindings_fromDefault|]. by intros b Hb'.
Qed.

Lemma ownTable_new item :
  item = NoItem ∨ item = Malformed → ownTable (new_InputService item).
Proof.
  intros Hitem.
  assert (Hb : bindings (new_InputService item) = table_of defaultBindings)
    by (by destruct Hitem as [-> | ->]).
  assert (Hl : localStorage (new_InputService item) = item)
    by (by destruct Hitem as [-> | ->]).
  split.
  - rewrite Hb. apply defaultBindings_own.
  - rewrite Hl. by destruct Hitem as [-> | ->].
Qed.

Lemma ownTable_load_fold bindingsData
    (m : JsMap InputActionType IInputBinding) :
  Forall fromDefault bindingsData →
  Forall (fun kv : InputActionType * IInputBinding =>
            kv.1 = action kv.2 ∧ fromDefault kv.2) m →
  Forall (fun kv : InputActionType * IInputBinding =>
            kv.1 = action kv.2 ∧ fromDefault kv.2)
    (foldl (fun m binding =>
              if jsmap_has (action binding) m
              then jsmap_set (action binding) binding m else m)
       m bindingsData).
Proof.
  intros Hdata. revert m.
  induction Hdata as [|b bindingsData Hb Hdata IH]; intros m Hm; simpl; [done|].
  apply IH. destruct (jsmap_has (action b) m); [|done].
  by apply Forall_jsmap_set.
Qed.

Lemma ownTable_step raises r s :
  writesStorage r = false → ownTable s → ownTable (step raises r s).
Proof.
  intros Hr [Hb Hl].
  destruct r as [a h|a h|c|c|a p sec| | | |e|item]; simpl in *; try done.
  - unfold unregister. by destruct (jsmap_get a (actionHandlers s)).
  - unfold rebindAction.
    destruct (jsmap_get a (bindings s)) as [b|] eqn:Hget; [|done].
    destruct (rebindable b) eqn:Hreb; simpl; [|done].
    split; [|done]. simpl. apply Forall_jsmap_set; [done|].
    apply jsmap_get_Some_elem in Hget.
    rewrite Forall_forall in Hb.
    destruct (Hb _ Hget) as [Ha (d & Hd & Hctx & Hdesc & Hrd & Hfix & Hn)].
    simpl in *. split; [done|]. exists d. simpl.
    split; [done|]. split; [done|]. split; [done|]. split; [congruence|].
    split; [intros Hno; congruence|].
    split; simpl; [apply toLowerCase_idemp|].
    destruct sec as [x|]; [|done]. destruct (truthy x) eqn:Hx; [|done].
    by rewrite toLowerCase_idemp, truthy_toLowerCase.
  - split; [exact defaultBindings_own | done].
  - split; [done|]. cbn [localStorage saveBindings with_localStorage].
    rewrite readBindings_stored. unfold jsmap_values. apply Forall_fmap.
    eapply Forall_impl; [exact Hb|]. by intros [a b] [_ Hfd].
  - unfold loadBindings. destruct (localStorage s) as [| |bindingsData] eqn:Hls;
      [split; [done | by rewrite Hls] | split; [done | by rewrite Hls] |].
    split; simpl; [|by rewrite Hls].
    rewrite loadLoop_fold. by apply ownTable_load_fold.
  - destruct (handleEvent_effects raises e s) as (_ & Hbs & _ & Hls & _).
    split; [by rewrite Hbs | by rewrite Hls].
Qed.

Lemma ownTable_run raises rs s :
  Forall (fun r => writesStorage r = false) rs →
  ownTable s → ownTable (run raises rs s).
Proof.
  intros Hrs. revert s.
  induction Hrs as [|r rs Hr Hrs IH]; intros s Hs; simpl; [done|].
  by apply IH, ownTable_step.
Qed.

Lemma ownTable_getBinding s a b :
  ownTable s → getBinding a s = Some b → action b = a ∧ fromDefault b.
Proof.
  intros [Hb _] Hget%jsmap_get_Some_elem. rewrite Forall_forall in Hb.
  destruct (Hb _ Hget) as [Ha Hfd]. simpl in *. by subst a.
Qed.

Lemma defaultBindings_PLAYER a d : defaultOf a = Some d → context d = PLAYER.
Proof.
  intros Hd. apply jsmap_get_Some_elem in Hd.
  assert (Hall : Forall (fun kv : InputActionType * IInputBinding =>
                           context kv.2 = PLAYER) (table_of defaultBindings))
    by (apply (bool_decide_unpack _); by vm_compute).
  rewrite Forall_forall in Hall. apply (Hall _ Hd).
Qed.

(** X9. As long as only the service itself writes the storage item (it is
    missing or unreadable at construction, and no other code writes it),
    rebinding changes controls and nothing else: in every state reached,
    menu-toggle is bound to escape as at the start, and every binding is
    stored under its own action, on the player context, with the
    description and the rebindable flag of the default binding, and with
    controls in lower case. *)
Theorem bindings_keep_their_metadata
    (raises : InputActionHandler → InputState → option InputValue → bool)
    (item : StorageItem) (rs : list Request) :
  item = NoItem ∨ item = Malformed →
  Forall (fun r => writesStorage r = false) rs →
  let s := run raises rs (new_InputService item) in
  getBinding MENU_TOGGLE s
    = Some (mkBinding MENU_TOGGLE "escape" None PLAYER "Toggle Menu" false)
  ∧ ∀ a b, getBinding a s = Some b →
      action b = a ∧ context b = PLAYER ∧ normalised b
      ∧ ∃ d, defaultOf a = Some d
             ∧ description b = description d
             ∧ rebindable b = rebindable d.
Proof.
  intros Hitem Hrs s.
  pose proof (ownTable_run raises rs _ Hrs (ownTable_new item Hitem)) as Hown.
  fold s in Hown.
  assert (Hall : ∀ a b, getBinding a s = Some b →
            action b = a ∧ ∃ d, defaultOf a = Some d ∧ context b = context d
              ∧ description b = description d ∧ rebindable b = rebindable d
              ∧ (rebindable d = false → b = d) ∧ normalised b).
  { intros a b Hget.
    destruct (ownTable_getBinding s a b Hown Hget) as [Ha (d & Hd & Hrest)].
    split; [done|]. exists d. by rewrite <- Ha. }
  split.
  - destruct (run_table raises item rs) as (l & Hl & Hacts). fold s in Hl.
    destruct (getBinding MENU_TOGGLE s) as [b|] eqn:Hget.
    + destruct (Hall _ _ Hget) as (_ & d & Hd & _ & _ & _ & Hfix & _).
      vm_compute in Hd. injection Hd as <-. by rewrite Hfix.
    + unfold getBinding in Hget. apply jsmap_get_None_keys in Hget.
      destruct Hget. rewrite Hl, jsmap_keys_table_of, Hacts.
      apply (bool_decide_unpack _). by vm_compute.
  - intros a b Hget.
    destruct (Hall _ _ Hget) as (Ha & d & Hd & Hctx & Hdesc & Hreb & _ & Hn).
    split; [done|]. split; [by rewrite Hctx, (defaultBindings_PLAYER a d)|].
    split; [done|]. by exists d.
Qed.

Lemma bindings_keep_their_metadata_witness :
  let s := run neverRaises
             [RebindAction JUMP "J" (Some "Enter"); SaveBindings;
              RebindAction MENU_TOGGLE "m" None; ResetBindings; LoadBindings]
             (new_InputService Malformed) in
  getBinding MENU_TOGGLE s
    = Some (mkBinding MENU_TOGGLE "escape" None PLAYER "Toggle Menu" false)
  ∧ ∀ a b, getBinding a s = Some b →
      action b = a ∧ context b = PLAYER ∧ normalised b
      ∧ ∃ d, defaultOf a = Some d
             ∧ description b = description d
             ∧ rebindable b = rebindable d.
Proof.
  apply (bindings_keep_their_metadata neverRaises Malformed
           [RebindAction JUMP "J" (Some "Enter"); SaveBindings;
            RebindAction MENU_TOGGLE "m" None; ResetBindings; LoadBindings]).
  - right. reflexivity.
  - repeat constructor.
Defined.

(** The hypothesis of X9 is needed: a stored binding is taken over whole,
    its rebindable flag and its context included, so an array written by
    other code unlocks menu-toggle. *)
Example stored_binding_unlocks_menu_toggle :
  let forged := mkBinding MENU_TOGGLE "x" None UI "Toggle Menu" true in
  let s := run neverRaises
             [StorageWritten (JsonArray [StoredBinding forged]); LoadBindings]
             (new_InputService NoItem) in
  getBinding MENU_TOGGLE s = Some forged
  ∧ (rebindAction MENU_TOGGLE "y" None s).1 = true.
Proof. by vm_compute. Qed.

(** X10. As long as only the service itself writes the storage item, the
    player context is the only one that counts: while it is disabled, an
    event of any kind invokes no handler and changes no action state,
    whichever other contexts are enabled. *)
Theorem player_context_gates_everything
    (raises : InputActionHandler → InputState → option InputValue → bool)
    (item : StorageItem) (rs : list Request) (e : DomEvent) :
  item = NoItem ∨ item = Malformed →
  Forall (fun r => writesStorage r = false) rs →
  let s := run raises rs (new_InputService item) in
  isContextEnabled PLAYER s = false →
  let s' := after (handleEvent raises e s) in
  calls s' = calls s ∧ actionStates s' = actionStates s.
Proof.
  intros Hitem Hrs s Hoff s'.
  pose proof (ownTable_run raises rs _ Hrs (ownTable_new item Hitem)) as Hown.
  fold s in Hown.
  apply bool_decide_eq_false in Hoff.
  assert (Hun : ∀ key a, a ∉ affected key s).
  { intros key a (b & Hin & Hlive & _)%affectedIn_elem.
    destruct Hown as [Hb _]. rewrite Forall_forall in Hb.
    destruct (Hb _ Hin) as [Ha (d & Hd & Hctx & _)]. simpl in *.
    rewrite Hctx, (defaultBindings_PLAYER _ d Hd) in Hlive. by destruct Hoff. }
  destruct (handleEvent_effects raises e s)
    as (_ & _ & _ & _ & (new & Hcalls & Hall) & Hst).
  fold s' in Hcalls, Hst. split.
  - destruct new as [|c new]; [by rewrite Hcalls, app_nil_r|].
    destruct (Hall c) as (key & pressed & _ & Ha & _); [left|].
    by destruct (Hun key (call_action c)).
  - apply map_eq. intros a.
    destruct (Hst a) as [Hsame|(key & pressed & _ & Ha & _)]; [done|].
    by destruct (Hun key a).
Qed.

Lemma player_context_gates_everything_witness :
  let s := run (onlyRaises 1)
             [RegisterActionHandler JUMP 1%nat; EnableContext UI;
              EnableContext MENU; DisableContext PLAYER]
             (new_InputService NoItem) in
  let s' := after (handleEvent (onlyRaises 1) (KeyDown " ") s) in
  isContextEnabled UI s = true
  ∧ calls s' = calls s ∧ actionStates s' = actionStates s.
Proof.
  intros s s'. split; [by vm_compute|].
  apply (player_context_gates_everything (onlyRaises 1) NoItem
           [RegisterActionHandler JUMP 1%nat; EnableContext UI;
            EnableContext MENU; DisableContext PLAYER] (KeyDown " ")).
  - left. reflexivity.
  - repeat constructor.
  - vm_compute. reflexivity.
Defined.

(** ** Rebinding, saving and loading *)

Lemma jsmap_elem_set {K V} `{EqDecision K} (k k' : K) (v v' v0 : V) (m : JsMap K V) :
  NoDup (jsmap_keys m) →
  jsmap_get k m = Some v0 →
  (k', v') ∈ jsmap_set k v m ↔ (k' = k ∧ v' = v) ∨ (k' ≠ k ∧ (k', v') ∈ m).
Proof.
  intros Hnd Hget.
  assert (Hnd' : NoDup (jsmap_keys (jsmap_set k v m)))
    by (by rewrite (jsmap_keys_set k v v0 m Hget)).
  split.
  - intros Hin%(jsmap_get_NoDup_elem _ _ _ Hnd').
    destruct (decide (k' = k)) as [->|Hne].
    + rewrite jsmap_get_set_eq in Hin. left. split; congruence.
    + rewrite jsmap_get_set_ne in Hin by done. right.
      split; [done | by apply jsmap_get_Some_elem].
  - intros [[-> ->]|[Hne Hin]]; apply jsmap_get_Some_elem.
    + apply jsmap_get_set_eq.
    + rewrite jsmap_get_set_ne by done. by apply jsmap_get_NoDup_elem.
Qed.

(** X11. A successful rebinding redirects the action to its new controls:
    afterwards a raw transition of a control reaches the action if and only
    if the context of its binding is enabled and the control is the
    lower-cased new primary one or the lower-cased new secondary one (when
    one was given and is not empty); the old controls no longer reach it,
    and which controls reach the other actions is unchanged. *)
Theorem rebindAction_redirects
    (a : InputActionType) (p : string) (sec : option string)
    (s : InputService) (b : IInputBinding) :
  NoDup (jsmap_keys (bindings s)) →
  getBinding a s = Some b →
  rebindable b = true →
  let s' := (rebindAction a p sec s).2 in
  ∀ key,
    (a ∈ affected key s' ↔
       context b ∈ activeContexts s
       ∧ (key = toLowerCase p
          ∨ ∃ x, sec = Some x ∧ truthy x = true ∧ key = toLowerCase x))
    ∧ ∀ a', a' ≠ a → (a' ∈ affected key s' ↔ a' ∈ affected key s).
Proof.
  intros Hnd Hget Hreb s' key. unfold getBinding in Hget.
  assert (Hs' : ∃ b', bindings s' = jsmap_set a b' (bindings s)
            ∧ activeContexts s' = activeContexts s
            ∧ context b' = context b
            ∧ primary b' = toLowerCase p
            ∧ secondary b'
              = match sec with
                | Some x => if truthy x then Some (toLowerCase x) else None
                | None => None
                end).
  { unfold s', rebindAction. rewrite Hget, Hreb. simpl. by eexists. }
  destruct Hs' as (b' & Hbs & Hctxs & Hctx & Hp & Hsec).
  unfold affected. rewrite Hbs, Hctxs. split.
  - rewrite affectedIn_elem. split.
    + intros (x & Hin & Hlive & Hmatch).
      apply (jsmap_elem_set _ _ _ _ _ _ Hnd Hget) in Hin as [[_ ->]|[Hne _]];
        [|done].
      split; [by rewrite <- Hctx|].
      unfold bindingMatches in Hmatch. rewrite Hp, Hsec in Hmatch.
      apply orb_true_iff in Hmatch as [Hm|Hm]; apply bool_decide_eq_true in Hm.
      * by left.
      * right. destruct sec as [y|]; [|done]. destruct (truthy y) eqn:Hy; [|done].
        exists y. split; [done|]. split; [done|]. congruence.
    + intros [Hlive Hkey]. exists b'.
      split; [apply (jsmap_elem_set _ _ _ _ _ _ Hnd Hget); by left|].
      split; [by rewrite Hctx|].
      unfold bindingMatches. rewrite Hp, Hsec. apply orb_true_iff.
      destruct Hkey as [->|(y & -> & Hy & ->)].
      * left. by apply bool_decide_eq_true.
      * right. rewrite Hy. by apply bool_decide_eq_true.
  - intros a' Hne. rewrite !affectedIn_elem.
    split; intros (x & Hin & Hrest); exists x; (split; [|done]).
    + by apply (jsmap_elem_set _ _ _ _ _ _ Hnd Hget) in Hin as [[? _]|[_ ?]].
    + apply (jsmap_elem_set _ _ _ _ _ _ Hnd Hget). by right.
Qed.

Lemma rebindAction_redirects_witness :
  let s := new_InputService NoItem in
  let s' := (rebindAction JUMP "J" (Some "Enter") s).2 in
  (JUMP ∈ affected "enter" s' ↔
     PLAYER ∈ activeContexts s
     ∧ ("enter" = toLowerCase "J"
        ∨ ∃ x, Some "Enter" = Some x ∧ truthy x = true
               ∧ "enter" = toLowerCase x))
  ∧ ∀ a', a' ≠ JUMP → (a' ∈ affected "enter" s' ↔ a' ∈ affected "enter" s).
Proof.
  assert (Hnd : NoDup (jsmap_keys (bindings (new_InputService NoItem))))
    by (apply (bool_decide_unpack _); vm_compute; reflexivity).
  exact (rebindAction_redirects JUMP "J" (Some "Enter") (new_InputService NoItem)
           (mkBinding JUMP " " None PLAYER "Jump" true)
           Hnd eq_refl eq_refl "enter").
Defined.



(** A [null] in the stored array ends the loading: the binding before it is
    taken over, the one after it is not. *)
Example loadBindings_stops_at_null :
  let stored :=
    [StoredBinding (mkBinding JUMP "k" None PLAYER "Jump" true);
     StoredNull;
     StoredBinding (mkBinding SPRINT "l" None PLAYER "Sprint" true)] in
  let s := run neverRaises [StorageWritten (JsonArray stored); LoadBindings]
             (new_InputService NoItem) in
  primary <$> getBinding JUMP s = Some "k"
  ∧ primary <$> getBinding SPRINT s = Some "shift".
Proof. by vm_compute. Qed.

(** X13. In every state that a constructed service reaches, loading right
    after saving changes nothing: the table that [saveBindings] stored is
    the table that [loadBindings] reads back. *)
Theorem save_then_load_changes_nothing
    (raises : InputActionHandler → InputState → option InputValue → bool)
    (item : StorageItem) (rs : list Request) :
  let s := run raises rs (new_InputService item) in
  loadBindings (saveBindings s) = saveBindings s.
Proof.
  intros s. destruct (run_table raises item rs) as (l & Hl & Hacts).
  fold s in Hl.
  assert (Hb : bindings (loadBindings (saveBindings s)) = bindings s).
  { rewrite loadBindings_bindings.
    cbn [localStorage saveBindings with_localStorage bindings].
    rewrite readBindings_stored, Hl, jsmap_values_table_of.
    apply (loadBindings_fold [] l l eq_refl).
    rewrite app_nil_l, Hacts. apply defaultBindings_NoDup. }
  revert Hb. unfold loadBindings, saveBindings. simpl.
  destruct s; simpl. intros Hb.
  unfold with_bindings, with_localStorage. simpl. by rewrite Hb.
Qed.

(** ** The tracker of raw controls *)

Lemma keyPressed_set_eq key (v : bool) s :
  keyPressed key (with_keyStates (jsmap_set key v) s) = v.
Proof. unfold keyPressed. simpl. rewrite jsmap_get_set_eq. by destruct v. Qed.

Lemma keyPressed_set_ne key key' (v : bool) s :
  key ≠ key' →
  keyPressed key' (with_keyStates (jsmap_set key v) s) = keyPressed key' s.
Proof. intros Hne. unfold keyPressed. simpl. by rewrite jsmap_get_set_ne. Qed.

Lemma keyPressed_keyStates key s t :
  keyStates t = keyStates s → keyPressed key t = keyPressed key s.
Proof. unfold keyPressed. by intros ->. Qed.

Lemma bind_run {A B} (m : Eff A) (k : A → Eff B) s :
  bind m k s
  = match m s with
    | (Normal a, s') => k a s'
    | (Thrown h, s') => (Thrown h, s')
    end.
Proof. reflexivity. Qed.

Section Tracker.
Context (raises : InputActionHandler → InputState → option InputValue → bool).

Lemma processInputChange_keyStates key pressed s :
  keyStates (processInputChange raises key pressed s).2 = keyStates s.
Proof.
  by apply (preserves_processInputChange raises
              (fun t => keyStates t = keyStates s)).
Qed.

Lemma processInputChange_axisValues key pressed s :
  axisValues (processInputChange raises key pressed s).2 = axisValues s.
Proof.
  by apply (preserves_processInputChange raises
              (fun t => axisValues t = axisValues s)).
Qed.

(** A listener that writes the tracker, dispatches and then runs [rest],
    which leaves the tracker alone. *)
Lemma listener_keyStates key (v pressed : bool) (rest : Eff unit) s :
  (∀ t, keyStates (rest t).2 = keyStates t) →
  keyStates ((modify (with_keyStates (jsmap_set key v)) ;;
              processInputChange raises key pressed ;; rest) s).2
  = jsmap_set key v (keyStates s).
Proof.
  intros Hrest. unfold bind at 1. unfold modify at 1. unfold bind.
  pose proof (processInputChange_keyStates key pressed
                (with_keyStates (jsmap_set key v) s)) as Hk.
  destruct (processInputChange raises key pressed _) as [[[]|h] t];
    simpl in *; [by rewrite Hrest | done].
Qed.

Lemma handleEvent_trackerWrite e key (v : bool) s :
  trackerWrite e = Some (key, v) →
  keyPressed key (after (handleEvent raises e s)) = v
  ∧ ∀ key', key' ≠ key →
      keyPressed key' (after (handleEvent raises e s)) = keyPressed key' s.
Proof.
  assert (Hupd : ∀ t, keyStates (modify updateAxisValues t).2 = keyStates t)
    by done.
  assert (Hret : ∀ t, keyStates (ret tt t).2 = keyStates t) by done.
  assert (Hset : ∀ t, keyStates t = jsmap_set key v (keyStates s) →
            keyPressed key t = v
            ∧ ∀ key', key' ≠ key → keyPressed key' t = keyPressed key' s).
  { intros t Ht. split.
    - rewrite <- (keyPressed_set_eq key v s). by apply keyPressed_keyStates.
    - intros key' Hne. rewrite <- (keyPressed_set_ne key key' v s) by done.
      by apply keyPressed_keyStates. }
  destruct e as [k|k|n|n| |]; simpl; intros [= <- <-]; unfold after.
  - unfold handleKeyDown. destruct (keyPressed (toLowerCase k) s) eqn:Hrep.
    + by split.
    + apply Hset.
      apply (listener_keyStates (toLowerCase k) true true
               (modify updateAxisValues) s Hupd).
  - apply Hset.
    apply (listener_keyStates (toLowerCase k) false false
             (modify updateAxisValues) s Hupd).
  - apply Hset. unfold handleMouseDown.
    pose proof (listener_keyStates (mouseToken n) true true (ret tt) s Hret)
      as Hk.
    rewrite <- Hk. unfold bind.
    by destruct (modify _ s) as [[[]|?] ?];
      [destruct (processInputChange _ _ _ _) as [[[]|?] ?]|].
  - apply Hset. unfold handleMouseUp.
    pose proof (listener_keyStates (mouseToken n) false false (ret tt) s Hret)
      as Hk.
    rewrite <- Hk. unfold bind.
    by destruct (modify _ s) as [[[]|?] ?];
      [destruct (processInputChange _ _ _ _) as [[[]|?] ?]|].
Qed.

(** The body of the first loop of [handleWindowBlur]. *)
Lemma blur_body_keyStates key (pressed : bool) t :
  keyStates ((if pressed
              then modify (with_keyStates (jsmap_set key false)) ;;
                   processInputChange raises key false
              else ret tt) t).2
  = if pressed then jsmap_set key false (keyStates t) else keyStates t.
Proof.
  destruct pressed; [|done].
  pose proof (listener_keyStates key false false (ret tt) t
                (fun _ => eq_refl)) as Hk.
  rewrite <- Hk. unfold bind.
  by destruct (modify _ t) as [[[]|?] ?];
    [destruct (processInputChange _ _ _ _) as [[[]|?] ?]|].
Qed.

Lemma blur_loop_never_presses (entries : list (string * bool)) t key :
  keyPressed key
    (forOf entries
       (fun '(key, pressed) =>
          if pressed : bool
          then modify (with_keyStates (jsmap_set key false)) ;;
               processInputChange raises key false
          else ret tt) t).2 = true →
  keyPressed key t = true.
Proof.
  revert t. induction entries as [|[k0 p0] entries IH]; intros t; simpl;
    [done|].
  destruct p0; [|apply IH].
  pose proof (blur_body_keyStates k0 true t) as Hbody. cbv iota in Hbody.
  rewrite bind_run.
  set (r := (modify (with_keyStates (jsmap_set k0 false)) ;;
             processInputChange raises k0 false) t) in *.
  assert (Hstep : keyPressed key r.2 = true → keyPressed key t = true).
  { unfold keyPressed. rewrite Hbody.
    destruct (decide (k0 = key)) as [->|Hne].
    - by rewrite jsmap_get_set_eq.
    - by rewrite jsmap_get_set_ne. }
  destruct r as [[[]|h] t1]; cbv beta iota; cbn [snd] in *; [|done].
  intros Hk%IH. by apply Hstep.
Qed.

Lemma blur_loop_completed (entries : list (string * bool)) t key :
  completed (forOf entries
       (fun '(key, pressed) =>
          if pressed : bool
          then modify (with_keyStates (jsmap_set key false)) ;;
               processInputChange raises key false
          else ret tt) t) = true →
  (key, true) ∈ entries ∨ keyPressed key t = false →
  keyPressed key
    (forOf entries
       (fun '(key, pressed) =>
          if pressed : bool
          then modify (with_keyStates (jsmap_set key false)) ;;
               processInputChange raises key false
          else ret tt) t).2 = false.
Proof.
  revert t. induction entries as [|[k0 p0] entries IH]; intros t; simpl.
  - by intros _ [?%elem_of_nil|?].
  - destruct p0.
    + pose proof (blur_body_keyStates k0 true t) as Hbody. cbv iota in Hbody.
      rewrite bind_run.
      set (r := (modify (with_keyStates (jsmap_set k0 false)) ;;
                 processInputChange raises k0 false) t) in *.
      assert (Hstep : (key, true) ∈ (k0, true) :: entries
                      ∨ keyPressed key t = false →
                (key, true) ∈ entries ∨ keyPressed key r.2 = false).
      { unfold keyPressed. rewrite Hbody.
        intros [[[= ->]|Hin]%elem_of_cons|Hoff].
        - right. by rewrite jsmap_get_set_eq.
        - by left.
        - right. destruct (decide (k0 = key)) as [->|Hne].
          + by rewrite jsmap_get_set_eq.
          + by rewrite jsmap_get_set_ne. }
      destruct r as [[[]|h] t1]; cbv beta iota; cbn [snd] in *;
        [|by unfold completed].
      intros Hdone Hkey. apply IH; [done | by apply Hstep].
    + intros Hdone [[[=]|Hin]%elem_of_cons|Hoff]; apply IH; auto.
Qed.

Lemma axis_reset_keyStates (ks : list InputActionType) t :
  (forOf ks (fun a => modify (with_axisValues (jsmap_set a 0%Z))) t).1
    = Normal tt
  ∧ keyStates (forOf ks (fun a => modify (with_axisValues (jsmap_set a 0%Z))) t).2
    = keyStates t.
Proof.
  revert t. induction ks as [|a ks IH]; intros t; simpl; [done|].
  rewrite !bind_run. unfold modify at 1 3.
  exact (IH (with_axisValues (jsmap_set a 0%Z) t)).
Qed.
End Tracker.

(** X14. The tracker of raw controls follows every event, whatever the
    handlers do, because a listener writes it before it dispatches: after a
    key or button event the control of the event is tracked as pressed on a
    press and as not pressed on a release, and every other control is
    tracked as before; a pointer move changes nothing in the tracker; a
    focus loss never marks a control as pressed, and when its listener
    returns, no control is tracked as pressed. *)
Theorem tracker_follows_events
    (raises : InputActionHandler → InputState → option InputValue → bool)
    (e : DomEvent) (s : InputService) :
  let s' := after (handleEvent raises e s) in
  match trackerWrite e with
  | Some (key, pressed) =>
      keyPressed key s' = pressed
      ∧ ∀ key', key' ≠ key → keyPressed key' s' = keyPressed key' s
  | None =>
      (∀ key, keyPressed key s' = true → keyPressed key s = true)
      ∧ (e = MouseMove → keyStates s' = keyStates s)
      ∧ (completed (handleEvent raises e s) = true → e = Blur →
         ∀ key, keyPressed key s' = false)
  end.
Proof.
  intros s'. destruct (trackerWrite e) as [[key pressed]|] eqn:He.
  - by apply handleEvent_trackerWrite.
  - unfold s', after. destruct e as [k|k|n|n| |]; try done; simpl.
    + unfold handleWindowBlur. unfold bind.
      pose proof (blur_loop_never_presses raises (keyStates s) s) as Hnever.
      pose proof (blur_loop_completed raises (keyStates s) s) as Hall.
      unfold completed in *.
      destruct (forOf (keyStates s) _ s) as [[[]|h] t]; simpl in *.
      * destruct (axis_reset_keyStates (jsmap_keys (axisValues t)) t)
          as [Hc Hk].
        split; [|split; [done|]].
        -- intros key Hkey. apply Hnever.
           by rewrite <- (keyPressed_keyStates key t _ Hk).
        -- intros _ _ key. rewrite (keyPressed_keyStates key t _ Hk).
           apply Hall; [done|].
           destruct (keyPressed key s) eqn:Hp; [left | by right].
           unfold keyPressed in Hp.
           destruct (jsmap_get key (keyStates s)) as [[]|] eqn:Hget; try done.
           by apply jsmap_get_Some_elem.
      * split; [done|]. by split.
Qed.

(** X15. A mouse-button event leaves the axis values alone, whatever the
    bindings: the listeners of the mouse buttons do not recompute them, so
    a movement action bound to a mouse button is reported as pressed while
    its axis keeps the value it had. *)
Theorem mouse_buttons_leave_axes
    (raises : InputActionHandler → InputState → option InputValue → bool)
    (button : N) (s : InputService) :
  axisValues (after (handleEvent raises (MouseDown button) s)) = axisValues s
  ∧ axisValues (after (handleEvent raises (MouseUp button) s)) = axisValues s
  ∧ ∀ a, getAxisValue a (after (handleEvent raises (MouseDown button) s))
         = getAxisValue a s.
Proof.
  assert (H : ∀ v p, axisValues
            (after ((modify (with_keyStates (jsmap_set (mouseToken button) v)) ;;
                     processInputChange raises (mouseToken button) p) s))
            = axisValues s).
  { intros v p. unfold after, bind, modify. simpl.
    by rewrite processInputChange_axisValues. }
  split; [apply H|]. split; [apply H|].
  intros a. unfold getAxisValue. simpl. unfold handleMouseDown. by rewrite H.
Qed.

(** * Properties of the service locator *)

Section LocatorFacts.
Context {T : Type} (truthyValue : T → bool).
Implicit Types (l : ServiceLocator.Locator T) (c : ServiceLocator.Call T).

Lemma locator_call_untouched serviceType c l :
  ServiceLocator.touches serviceType c = false →
  ServiceLocator.services (ServiceLocator.call truthyValue c l) !! serviceType
  = ServiceLocator.services l !! serviceType.
Proof.
  destruct c as [d|x v|x|x|x|]; simpl; try done.
  - intros Hne%bool_decide_eq_false. unfold ServiceLocator.register.
    destruct (ServiceLocator.debug l); simpl; by rewrite lookup_insert_ne.
  - unfold ServiceLocator.get.
    by destruct (_ && ServiceLocator.debug l).
  - intros Hne%bool_decide_eq_false. unfold ServiceLocator.unregister.
    destruct (ServiceLocator.has x l); [|done].
    destruct (ServiceLocator.debug _); simpl; by rewrite lookup_delete_ne.
Qed.

Lemma locator_calls_untouched serviceType (cs : list (ServiceLocator.Call T)) l :
  Forall (fun c => ServiceLocator.touches serviceType c = false) cs →
  ServiceLocator.services (ServiceLocator.calls truthyValue cs l) !! serviceType
  = ServiceLocator.services l !! serviceType.
Proof.
  intros Hcs. unfold ServiceLocator.calls. revert l.
  induction Hcs as [|c cs Hc Hcs IH]; intros l; cbn [foldl]; [done|].
  by rewrite IH, locator_call_untouched.
Qed.

Lemma locator_register_lookup serviceType v l :
  ServiceLocator.services (ServiceLocator.register serviceType v l) !! serviceType
  = Some v.
Proof.
  unfold ServiceLocator.register.
  destruct (ServiceLocator.debug l); simpl; by rewrite lookup_insert_eq.
Qed.

Lemma locator_unregister_lookup serviceType l :
  ServiceLocator.services (ServiceLocator.unregister serviceType l) !! serviceType
  = None.
Proof.
  unfold ServiceLocator.unregister, ServiceLocator.has.
  case_bool_decide as Hhas.
  - destruct (ServiceLocator.debug _); simpl; by rewrite lookup_delete_eq.
  - destruct (ServiceLocator.services l !! serviceType) eqn:Hl; [|done].
    destruct Hhas. by eexists.
Qed.

Lemma locator_clear_lookup serviceType l :
  ServiceLocator.services (ServiceLocator.clear l) !! serviceType = None.
Proof.
  unfold ServiceLocator.clear.
  destruct (ServiceLocator.debug _); simpl; by rewrite lookup_empty.
Qed.

Lemma locator_answers serviceType l :
  ServiceLocator.has serviceType l
    = bool_decide (is_Some (ServiceLocator.services l !! serviceType))
  ∧ (ServiceLocator.get truthyValue serviceType l).1
    = match ServiceLocator.services l !! serviceType with
      | Some v => if truthyValue v then Some v else None
      | None => None
      end.
Proof. done. Qed.
End LocatorFacts.

(** X16. A registration lasts until the entry is registered again,
    unregistered or all entries are cleared: after [register], and any
    calls that do none of these for the same name, [has] answers true and
    [get] returns the registered implementation, or null when the
    implementation is falsy, although [has] answers true. *)
Theorem locator_registration_lasts {T : Type} (truthyValue : T → bool)
    (serviceType : string) (implementation : T)
    (cs : list (ServiceLocator.Call T)) (l : ServiceLocator.Locator T) :
  Forall (fun c => ServiceLocator.touches serviceType c = false) cs →
  let l' := ServiceLocator.calls truthyValue cs
              (ServiceLocator.register serviceType implementation l) in
  ServiceLocator.has serviceType l' = true
  ∧ (ServiceLocator.get truthyValue serviceType l').1
    = if truthyValue implementation then Some implementation else None.
Proof.
  intros Hcs l'.
  destruct (locator_answers truthyValue serviceType l') as [-> ->].
  unfold l'. rewrite (locator_calls_untouched truthyValue _ _ _ Hcs).
  rewrite locator_register_lookup. split; [|done].
  apply bool_decide_eq_true. by eexists.
Qed.

Lemma locator_registration_lasts_witness :
  let l' := ServiceLocator.calls (fun _ : InputService => true)
              [ServiceLocator.SetDebug true;
               ServiceLocator.Register "save-service" (fields NoItem);
               ServiceLocator.Unregister "save-service";
               ServiceLocator.Get "audio-service"]
              (ServiceLocator.register ServiceTypes_INPUT
                 (new_InputService NoItem) ServiceLocator.initial) in
  ServiceLocator.has ServiceTypes_INPUT l' = true
  ∧ (ServiceLocator.get (fun _ => true) ServiceTypes_INPUT l').1
    = Some (new_InputService NoItem).
Proof.
  apply (locator_registration_lasts (fun _ : InputService => true)
           ServiceTypes_INPUT (new_InputService NoItem)
           [ServiceLocator.SetDebug true;
            ServiceLocator.Register "save-service" (fields NoItem);
            ServiceLocator.Unregister "save-service";
            ServiceLocator.Get "audio-service"]
           ServiceLocator.initial).
  repeat constructor.
Defined.

(** X17. An entry that was unregistered, or that was there when all
    entries were cleared, stays unknown until it is registered again:
    after [unregister] or [clear], and any calls that do not register the
    name, [has] answers false and [get] returns null. Unregistering a name
    that has no entry changes nothing. *)
Theorem locator_unregistered_stays_unknown {T : Type} (truthyValue : T → bool)
    (serviceType : string)
    (cs : list (ServiceLocator.Call T)) (l : ServiceLocator.Locator T) :
  Forall (fun c => ∀ v, c ≠ ServiceLocator.Register serviceType v) cs →
  (∀ l0, (l0 = ServiceLocator.unregister serviceType l
          ∨ l0 = ServiceLocator.clear l) →
     let l' := ServiceLocator.calls truthyValue cs l0 in
     ServiceLocator.has serviceType l' = false
     ∧ (ServiceLocator.get truthyValue serviceType l').1 = None)
  ∧ (ServiceLocator.has serviceType l = false →
     ServiceLocator.unregister serviceType l = l).
Proof.
  intros Hcs. split.
  - intros l0 Hl0 l'.
    assert (H0 : ServiceLocator.services l0 !! serviceType = None).
    { destruct Hl0 as [-> | ->];
        [apply locator_unregister_lookup | apply locator_clear_lookup]. }
    assert (Hnone : ServiceLocator.services l' !! serviceType = None).
    { unfold l', ServiceLocator.calls. clear l' Hl0. revert l0 H0.
      induction Hcs as [|c cs Hc Hcs IH]; intros l0 H0; cbn [foldl]; [done|].
      apply IH. destruct c as [d|x v|x|x|x|]; simpl; try done.
      - destruct (decide (x = serviceType)) as [->|Hne];
          [by destruct (Hc v)|].
        unfold ServiceLocator.register.
        destruct (ServiceLocator.debug l0); simpl; by rewrite lookup_insert_ne.
      - unfold ServiceLocator.get. by destruct (_ && ServiceLocator.debug l0).
      - destruct (decide (x = serviceType)) as [->|Hne];
          [apply locator_unregister_lookup|].
        unfold ServiceLocator.unregister.
        destruct (ServiceLocator.has x l0); [|done].
        destruct (ServiceLocator.debug _); simpl; by rewrite lookup_delete_ne.
      - apply locator_clear_lookup. }
    destruct (locator_answers truthyValue serviceType l') as [-> ->].
    rewrite Hnone. split; [|done]. apply bool_decide_eq_false. by intros [? ?].
  - intros Hhas. unfold ServiceLocator.unregister. by rewrite Hhas.
Qed.

Lemma locator_unregistered_stays_unknown_witness :
  let cs := [ServiceLocator.Register "save-service" 7%Z;
             ServiceLocator.Unregister "save-service";
             ServiceLocator.Get ServiceTypes_INPUT; ServiceLocator.Clear] in
  let l := ServiceLocator.register ServiceTypes_INPUT 1%Z ServiceLocator.initial in
  (∀ l0, (l0 = ServiceLocator.unregister ServiceTypes_INPUT l
          ∨ l0 = ServiceLocator.clear l) →
     let l' := ServiceLocator.calls (fun z => negb (z =? 0)%Z) cs l0 in
     ServiceLocator.has ServiceTypes_INPUT l' = false
     ∧ (ServiceLocator.get (fun z => negb (z =? 0)%Z) ServiceTypes_INPUT l').1
       = None)
  ∧ (ServiceLocator.has ServiceTypes_INPUT l = false →
     ServiceLocator.unregister ServiceTypes_INPUT l = l).
Proof.
  apply (locator_unregistered_stays_unknown (fun z => negb (z =? 0)%Z)
           ServiceTypes_INPUT
           [ServiceLocator.Register "save-service" 7%Z;
            ServiceLocator.Unregister "save-service";
            ServiceLocator.Get ServiceTypes_INPUT; ServiceLocator.Clear]
           (ServiceLocator.register ServiceTypes_INPUT 1%Z
              ServiceLocator.initial)).
  repeat constructor; intros v; discriminate.
Defined.

(** X18. While debug logging is off, and no call turns it on, the locator
    writes nothing to the console and every call leaves the flag off;
    queries ([get], [has]) never change the registered services. *)
Theorem locator_quiet_without_debug {T : Type} (truthyValue : T → bool)
    (cs : list (ServiceLocator.Call T)) (l : ServiceLocator.Locator T) :
  ServiceLocator.debug l = false →
  Forall (fun c => ServiceLocator.turnsDebugOn c = false) cs →
  let l' := ServiceLocator.calls truthyValue cs l in
  ServiceLocator.console l' = ServiceLocator.console l
  ∧ ServiceLocator.debug l' = false
  ∧ ∀ serviceType,
      ServiceLocator.services (ServiceLocator.get truthyValue serviceType l).2
      = ServiceLocator.services l.
Proof.
  intros Hoff Hcs l'. split; [|split].
  - unfold l', ServiceLocator.calls. clear l'. revert l Hoff.
    induction Hcs as [|c cs Hc Hcs IH]; intros l Hoff; cbn [foldl]; [done|].
    assert (Hstep : ServiceLocator.console (ServiceLocator.call truthyValue c l)
                    = ServiceLocator.console l
                    ∧ ServiceLocator.debug (ServiceLocator.call truthyValue c l)
                      = false).
    { destruct c as [[]|x v|x|x|x|]; simpl in *; try done.
      - unfold ServiceLocator.register. by rewrite Hoff.
      - unfold ServiceLocator.get. by rewrite Hoff, andb_false_r.
      - unfold ServiceLocator.unregister.
        destruct (ServiceLocator.has x l); [|done]. simpl. by rewrite Hoff.
      - unfold ServiceLocator.clear. simpl. by rewrite Hoff. }
    destruct Hstep as [Hc1 Hd1]. by rewrite IH.
  - unfold l', ServiceLocator.calls. clear l'. revert l Hoff.
    induction Hcs as [|c cs Hc Hcs IH]; intros l Hoff; cbn [foldl]; [done|].
    apply IH.
    destruct c as [[]|x v|x|x|x|]; simpl in *; try done.
    + unfold ServiceLocator.register. by rewrite Hoff.
    + unfold ServiceLocator.get. by rewrite Hoff, andb_false_r.
    + unfold ServiceLocator.unregister.
      destruct (ServiceLocator.has x l); [|done]. simpl. by rewrite Hoff.
    + unfold ServiceLocator.clear. simpl. by rewrite Hoff.
  - intros serviceType. unfold ServiceLocator.get.
    by destruct (_ && ServiceLocator.debug l).
Qed.

Lemma locator_quiet_without_debug_witness :
  let cs := [ServiceLocator.Register ServiceTypes_INPUT 0%Z;
             ServiceLocator.Get ServiceTypes_INPUT;
             ServiceLocator.SetDebug false; ServiceLocator.Get "audio-service";
             ServiceLocator.Unregister ServiceTypes_INPUT; ServiceLocator.Clear] in
  let l' := ServiceLocator.calls (fun z => negb (z =? 0)%Z) cs
              ServiceLocator.initial in
  ServiceLocator.console l' = []
  ∧ ServiceLocator.debug l' = false
  ∧ ∀ serviceType,
      ServiceLocator.services
        (ServiceLocator.get (fun z => negb (z =? 0)%Z) serviceType
           ServiceLocator.initial).2
      = ServiceLocator.services ServiceLocator.initial.
Proof.
  apply (locator_quiet_without_debug (fun z => negb (z =? 0)%Z)
           [ServiceLocator.Register ServiceTypes_INPUT 0%Z;
            ServiceLocator.Get ServiceTypes_INPUT;
            ServiceLocator.SetDebug false; ServiceLocator.Get "audio-service";
            ServiceLocator.Unregister ServiceTypes_INPUT; ServiceLocator.Clear]
           ServiceLocator.initial).
  - reflexivity.
  - repeat constructor.
Defined.

(** A falsy implementation is registered and yet not found. *)
Example locator_falsy_implementation :
  let l := ServiceLocator.register ServiceTypes_INPUT 0%Z
             (ServiceLocator.setDebug true ServiceLocator.initial) in
  ServiceLocator.has ServiceTypes_INPUT l = true
  ∧ (ServiceLocator.get (fun z => negb (z =? 0)%Z) ServiceTypes_INPUT l).1 = None
  ∧ ServiceLocator.console
      (ServiceLocator.get (fun z => negb (z =? 0)%Z) ServiceTypes_INPUT l).2
    = [ServiceLocator.ConsoleLog "Registering service: input-service";
       ServiceLocator.ConsoleWarn "Service not found: input-service"].
Proof. by vm_compute. Qed.

(** ** Order of the invocations, and how a listener ends *)

(** X19. When no registered handler raises, [processInputChange] invokes
    exactly the handlers of the actions that the transition reaches, each
    once: the actions in the order of the binding table, the handlers of an
    action in the order of their registration, all with the state of the
    transition and the value the action had before the call; it gives that
    state to these actions and leaves the other action states alone. *)
Theorem processInputChange_calls_in_order
    (raises : InputActionHandler → InputState → option InputValue → bool)
    (key : string) (pressed : bool) (s : InputService) :
  quiet raises s →
  let r := processInputChange raises key pressed s in
  completed r = true
  ∧ newCalls s (after r)
    = flat_map (fun a => (fun h => Build_Call a h (stateFor pressed)
                                     (handlerValue a s)) <$> handlersOf a s)
        (affected key s)
  ∧ ∀ a, actionStates (after r) !! a
         = if bool_decide (a ∈ affected key s) then Some (stateFor pressed)
           else actionStates s !! a.
Proof.
  intros Hq r. unfold r.
  rewrite (processInputChange_quiet raises key pressed s Hq).
  split; [done|]. unfold after, dispatched. cbn [snd]. split.
  - by erewrite newCalls_app; [|reflexivity].
  - intros a. cbn. by rewrite foldl_insert_lookup.
Qed.

Lemma processInputChange_calls_in_order_witness :
  let r := processInputChange neverRaises " " true spaceService in
  completed r = true
  ∧ newCalls spaceService (after r)
    = flat_map (fun a => (fun h => Build_Call a h (stateFor true)
                                     (handlerValue a spaceService))
                           <$> handlersOf a spaceService)
        (affected " " spaceService)
  ∧ ∀ a, actionStates (after r) !! a
         = if bool_decide (a ∈ affected " " spaceService)
           then Some (stateFor true)
           else actionStates spaceService !! a.
Proof.
  apply (processInputChange_calls_in_order neverRaises " " true spaceService).
  intros a handlers handler st v _ _. reflexivity.
Defined.

Section Traced.
Context (raises : InputActionHandler → InputState → option InputValue → bool).

Lemma traced_ret {A} (a : A) s : traced raises s (ret a s).
Proof. exists []. simpl. by rewrite app_nil_r. Qed.

Lemma traced_modify f s : calls (f s) = calls s → traced raises s (modify f s).
Proof. intros Hc. exists []. simpl. by rewrite app_nil_r. Qed.

Lemma traced_bind {A B} (m : Eff A) (k : A → Eff B) s :
  traced raises s (m s) →
  (∀ a t, traced raises t (k a t)) →
  traced raises s (bind m k s).
Proof.
  intros (new1 & Hc1 & H1) Hk. rewrite bind_run.
  destruct (m s) as [[a|h] s1]; simpl in *.
  - destruct (Hk a s1) as (new2 & Hc2 & H2). exists (new1 ++ new2).
    split; [by rewrite Hc2, Hc1, app_assoc|].
    destruct (k a s1) as [[b|h] s2]; simpl in *.
    + by apply Forall_app.
    + destruct H2 as (before & c & -> & Hbefore & Hh & Hr).
      exists (new1 ++ before), c. split; [by rewrite app_assoc|].
      split; [by apply Forall_app | done].
  - by exists new1.
Qed.

Lemma traced_forOf {X} (xs : list X) (body : X → Eff unit) s :
  (∀ x t, traced raises t (body x t)) → traced raises s (forOf xs body s).
Proof.
  intros Hbody. revert s. induction xs as [|x xs IH]; intros s; simpl.
  - apply traced_ret.
  - apply traced_bind; [apply Hbody | intros _ t; apply IH].
Qed.

Lemma traced_invoke a h st v s : traced raises s (invoke raises a h st v s).
Proof.
  exists [Build_Call a h st v]. unfold invoke.
  destruct (raises h st v) eqn:Hr; simpl; (split; [done|]).
  - exists [], (Build_Call a h st v). by repeat split.
  - by apply Forall_singleton.
Qed.

Lemma traced_notifyActionHandlers a st s :
  traced raises s (notifyActionHandlers raises a st s).
Proof.
  unfold notifyActionHandlers.
  destruct (jsmap_get a (actionHandlers s)) as [handlers|]; [|apply traced_ret].
  apply traced_forOf. intros h t. apply traced_invoke.
Qed.

Lemma traced_processInputChange key pressed s :
  traced raises s (processInputChange raises key pressed s).
Proof.
  unfold processInputChange. apply traced_forOf. intros [a b] t.
  destruct (negb _); [apply traced_ret|].
  destruct (bindingMatches b key); [|apply traced_ret].
  apply traced_bind; [by apply traced_modify|].
  intros _ t'. apply traced_notifyActionHandlers.
Qed.

Lemma traced_handleEvent e s : traced raises s (handleEvent raises e s).
Proof.
  destruct e as [k|k|n|n| |]; simpl.
  - unfold handleKeyDown. destruct (keyPressed _ s); [apply traced_ret|].
    apply traced_bind; [by apply traced_modify|]. intros _ t.
    apply traced_bind; [apply traced_processInputChange|]. intros _ t'.
    by apply traced_modify.
  - unfold handleKeyUp.
    apply traced_bind; [by apply traced_modify|]. intros _ t.
    apply traced_bind; [apply traced_processInputChange|]. intros _ t'.
    by apply traced_modify.
  - unfold handleMouseDown.
    apply traced_bind; [by apply traced_modify|]. intros _ t.
    apply traced_processInputChange.
  - unfold handleMouseUp.
    apply traced_bind; [by apply traced_modify|]. intros _ t.
    apply traced_processInputChange.
  - by apply traced_modify.
  - unfold handleWindowBlur. apply traced_bind.
    + apply traced_forOf. intros [key pressed] t.
      destruct pressed; [|apply traced_ret].
      apply traced_bind; [by apply traced_modify|]. intros _ t'.
      apply traced_processInputChange.
    + intros _ t. apply traced_forOf. intros a t'. by apply traced_modify.
Qed.
End Traced.

(** X20. A listener ends abruptly exactly when a handler raises, and then
    at once: if the listener of an event returned, every invocation it made
    returned; if an exception left it, that exception was raised by the
    last invocation it made, every invocation before that one returned, and
    no handler was invoked after it. *)
Theorem exceptions_come_from_handlers
    (raises : InputActionHandler → InputState → option InputValue → bool)
    (e : DomEvent) (s : InputService) :
  let r := handleEvent raises e s in
  ∃ new,
    calls (after r) = calls s ++ new
    ∧ match r.1 with
      | Normal _ =>
          ∀ c, c ∈ new →
               raises (call_handler c) (call_state c) (call_value c) = false
      | Thrown h =>
          ∃ before c,
            new = before ++ [c]
            ∧ (∀ c', c' ∈ before →
                 raises (call_handler c') (call_state c') (call_value c') = false)
            ∧ call_handler c = h
            ∧ raises h (call_state c) (call_value c) = true
      end.
Proof.
  intros r. destruct (traced_handleEvent raises e s) as (new & Hc & Hnew).
  fold r in Hc, Hnew. exists new. split; [done|].
  destruct (r.1) as [[]|h].
  - by apply Forall_forall.
  - destruct Hnew as (before & c & -> & Hbefore & Hh & Hr).
    exists before, c. rewrite Forall_forall in Hbefore. by repeat split.
Qed.

(** X21. The repetition of a key that is held down is absorbed: a key-down
    that follows a key-down of the same key, written in any case, changes
    nothing and invokes no handler. This holds also when a handler raised
    during the first key-down: the key then stays tracked as pressed, and
    further key-downs of it are ignored until it is released. *)
Theorem key_repeat_is_absorbed
    (raises : InputActionHandler → InputState → option InputValue → bool)
    (k k' : string) (s : InputService) :
  toLowerCase k' = toLowerCase k →
  let s1 := after (handleEvent raises (KeyDown k) s) in
  handleEvent raises (KeyDown k') s1 = (Normal tt, s1).
Proof.
  intros Hk s1. simpl. apply handleKeyDown_repeat. rewrite Hk.
  by destruct (handleEvent_trackerWrite raises (KeyDown k) (toLowerCase k)
                 true s eq_refl) as [Hp _].
Qed.

Lemma key_repeat_is_absorbed_witness :
  let r := handleEvent (onlyRaises 1) (KeyDown "w") movementService in
  completed r = false
  ∧ actionStates (after r) !! MOVE_FORWARD = Some PRESSED
  ∧ handleEvent (onlyRaises 1) (KeyDown "W") (after r) = (Normal tt, after r).
Proof.
  split; [by vm_compute|]. split; [by vm_compute|].
  by apply (key_repeat_is_absorbed (onlyRaises 1) "w" "W" movementService).
Defined.
